(** * Character-control core of the 3D scene ([src/main.js], class [Game])

    A shallow embedding of the input handlers, the per-frame update and the
    circle-based collision resolver of [src/main.js], together with the
    properties of the specification that concern them.

    JavaScript numbers are IEEE-754 binary64 values.  The code is embedded
    once, over an interface [Number] of the arithmetic the source uses, and
    the interface has two instances:
    - [float], Rocq's primitive binary64 numbers, which evaluates the code
      bit for bit as JavaScript does, and is used for the concrete scenarios;
    - [R], exact real arithmetic, the idealisation in which the universally
      quantified statements are proved (the tolerance of the specification
      is 0 there). *)

From Stdlib Require Import Reals Lra Lia ZArith List.
From Stdlib Require Floats Uint63.
From stdpp Require Import gmap strings.
Import ListNotations.

(** * Numbers *)

Declare Scope num_scope.
Delimit Scope num_scope with num.

(** The operations on numbers that [src/main.js] and the [THREE] methods it
    calls apply. *)
Class Number (T : Type) := {
  of_Z : Z -> T;                (* an integer literal *)
  nadd : T -> T -> T;           (* a + b *)
  nsub : T -> T -> T;           (* a - b *)
  nmul : T -> T -> T;           (* a * b *)
  ndiv : T -> T -> T;           (* a / b *)
  nopp : T -> T;                (* -a *)
  nsqrt : T -> T;               (* Math.sqrt(a) *)
  nltb : T -> T -> bool;        (* a < b *)
  neqb : T -> T -> bool;        (* a === b *)
  truthy : T -> bool;           (* ToBoolean(a): false on 0, -0 and NaN *)
  nmin : T -> T -> T;           (* Math.min(a, b) *)
  nmax : T -> T -> T;           (* Math.max(a, b) *)
  PI : T                        (* Math.PI *)
}.

Notation "a + b" := (nadd a b) : num_scope.
Notation "a - b" := (nsub a b) : num_scope.
Notation "a * b" := (nmul a b) : num_scope.
Notation "a / b" := (ndiv a b) : num_scope.
Notation "- a" := (nopp a) : num_scope.
Notation "a <? b" := (nltb a b) : num_scope.
Notation "a >? b" := (nltb b a) : num_scope.
Notation "a =? b" := (neqb a b) : num_scope.
Notation "a || b" := (if truthy a then a else b) : num_scope.

(** A decimal literal [n/d] with [n] and [d] exactly representable: the
    correctly rounded quotient is the binary64 value the literal denotes. *)
Definition decimal {T} `{Number T} (n d : Z) : T := (of_Z n / of_Z d)%num.

(** ** Exact real arithmetic *)

Definition Rltb (a b : R) : bool := if Rlt_dec a b then true else false.
Definition Reqb (a b : R) : bool := if Req_dec_T a b then true else false.

#[export] Instance R_Number : Number R := {|
  of_Z := IZR;
  nadd := Rplus; nsub := Rminus; nmul := Rmult; ndiv := Rdiv; nopp := Ropp;
  nsqrt := R_sqrt.sqrt;
  nltb := Rltb;
  neqb := Reqb;
  truthy := fun a => negb (Reqb a 0%R);
  nmin := Rmin; nmax := Rmax;
  PI := Rtrigo1.PI
|}.

(** ** Binary64 *)

Module Binary64.
Import PrimFloat.

Definition float_of_Z (z : Z) : float :=
    match z with
    | Z0 => zero
    | Zpos _ => of_uint63 (Uint63.of_Z z)
    | Zneg p => opp (of_uint63 (Uint63.of_Z (Zpos p)))
    end.

(** IEEE equality: [NaN] differs from itself, and [-0 === 0]. *)
Definition is_nan (a : float) : bool := negb (eqb a a).

(** ECMAScript [Math.min]: [NaN] if an argument is, and [-0] below [+0]. *)
Definition min (a b : float) : float :=
    if (is_nan a || is_nan b)%bool then nan
    else if ltb a b then a
    else if ltb b a then b
    else match classify a with FloatClass.NZero => a | _ => b end.

(** ECMAScript [Math.max]: [NaN] if an argument is, and [+0] above [-0]. *)
Definition max (a b : float) : float :=
    if (is_nan a || is_nan b)%bool then nan
    else if ltb b a then a
    else if ltb a b then b
    else match classify a with FloatClass.PZero => a | _ => b end.

#[export] Instance float_Number : Number float := {|
    of_Z := float_of_Z;
    nadd := add; nsub := sub; nmul := mul; ndiv := div; nopp := opp;
    nsqrt := sqrt;
    nltb := ltb;
    neqb := eqb;
    truthy := fun a => negb (eqb a zero || is_nan a);
    nmin := min; nmax := max;
    PI := 0x1.921fb54442d18p+1%float
  |}.
End Binary64.
Export (hints) Binary64.

(** * The [THREE] vector classes

    [THREE.Vector2], [THREE.Vector3] and [THREE.MathUtils] are the library's;
    the methods [src/main.js] calls are embedded from the library's
    definitions.  A method that mutates [this] returns the new value. *)

Module Vector2.
Record t (T : Type) := mk { x : T; y : T }.
Arguments mk {T}.
Arguments x {T}.
Arguments y {T}.

Section Methods.
Context {T : Type} `{Number T}.
Local Open Scope num_scope.

Definition zero : t T := mk (of_Z 0) (of_Z 0).
Definition sub (a b : t T) : t T := mk (x a - x b) (y a - y b).
Definition lengthSq (a : t T) : T := x a * x a + y a * y a.
Definition length (a : t T) : T := nsqrt (x a * x a + y a * y a).
Definition multiplyScalar (a : t T) (s : T) : t T := mk (x a * s) (y a * s).
Definition divideScalar (a : t T) (s : T) : t T := multiplyScalar a (of_Z 1 / s).
Definition normalize (a : t T) : t T := divideScalar a (length a || of_Z 1).
End Methods.
End Vector2.

Module Vector3.
Record t (T : Type) := mk { x : T; y : T; z : T }.
Arguments mk {T}.
Arguments x {T}.
Arguments y {T}.
Arguments z {T}.

Section Methods.
Context {T : Type} `{Number T}.
Local Open Scope num_scope.

Definition zero : t T := mk (of_Z 0) (of_Z 0) (of_Z 0).
Definition add (a b : t T) : t T := mk (x a + x b) (y a + y b) (z a + z b).
Definition lengthSq (a : t T) : T := x a * x a + y a * y a + z a * z a.
Definition length (a : t T) : T := nsqrt (x a * x a + y a * y a + z a * z a).
Definition multiplyScalar (a : t T) (s : T) : t T :=
      mk (x a * s) (y a * s) (z a * s).
Definition divideScalar (a : t T) (s : T) : t T := multiplyScalar a (of_Z 1 / s).
Definition normalize (a : t T) : t T := divideScalar a (length a || of_Z 1).
(** [this.x += (v.x - this.x) * alpha], and so on: [alpha] is not clamped. *)
Definition lerp (a v : t T) (alpha : T) : t T :=
      mk (x a + (x v - x a) * alpha) (y a + (y v - y a) * alpha)
         (z a + (z v - z a) * alpha).
End Methods.
End Vector3.

Module MathUtils.
Section Methods.
Context {T : Type} `{Number T}.
Local Open Scope num_scope.
Definition lerp (x y t : T) : T := (of_Z 1 - t) * x + t * y.
End Methods.
End MathUtils.

(** * The state of [Game]

    One record per object the constructor builds.  The scene, the renderer,
    the clock and the animation mixer belong to the rendering collaborator
    and carry no state the handlers below read. *)

(** An entry of [event.changedTouches]. *)
Module Touch.
Record t (T : Type) := mk { identifier : Z; clientX : T; clientY : T }.
Arguments mk {T}.
Arguments identifier {T}.
Arguments clientX {T}.
Arguments clientY {T}.
End Touch.

(** [this.player.mesh], once the model is loaded: its position and
    [rotation.y]. *)
Module Mesh.
Record t (T : Type) := mk { position : Vector3.t T; rotation_y : T }.
Arguments mk {T}.
Arguments position {T}.
Arguments rotation_y {T}.
End Mesh.

Module Player.
Record t (T : Type) := mk {
  mesh : option (Mesh.t T);
  velocity : Vector3.t T;
  baseSpeed : T;
  sprintSpeed : T;
  currentSpeed : T;
  collisionRadius : T
}.
Arguments mk {T}.
Arguments mesh {T}.
Arguments velocity {T}.
Arguments baseSpeed {T}.
Arguments sprintSpeed {T}.
Arguments currentSpeed {T}.
Arguments collisionRadius {T}.

Definition set_mesh {T} (m : option (Mesh.t T)) (p : t T) : t T :=
  mk m (velocity p) (baseSpeed p) (sprintSpeed p) (currentSpeed p) (collisionRadius p).
Definition set_velocity {T} (v : Vector3.t T) (p : t T) : t T :=
  mk (mesh p) v (baseSpeed p) (sprintSpeed p) (currentSpeed p) (collisionRadius p).
Definition set_currentSpeed {T} (s : T) (p : t T) : t T :=
  mk (mesh p) (velocity p) (baseSpeed p) (sprintSpeed p) s (collisionRadius p).
End Player.

(** [this.animation.walkAction], once a clip is loaded: whether it is
    running, and its [timeScale]. *)
Module Action.
Record t (T : Type) := mk { isRunning : bool; timeScale : T }.
Arguments mk {T}.
Arguments isRunning {T}.
Arguments timeScale {T}.
End Action.

Module CameraControls.
Record t (T : Type) := mk {
  phi : T;
  theta : T;
  distance : T;
  target : Vector3.t T;
  sensitivity : T
}.
Arguments mk {T}.
Arguments phi {T}.
Arguments theta {T}.
Arguments distance {T}.
Arguments target {T}.
Arguments sensitivity {T}.

Definition set_phi {T} (a : T) (c : t T) : t T :=
  mk a (theta c) (distance c) (target c) (sensitivity c).
Definition set_theta {T} (a : T) (c : t T) : t T :=
  mk (phi c) a (distance c) (target c) (sensitivity c).
Definition set_target {T} (v : Vector3.t T) (c : t T) : t T :=
  mk (phi c) (theta c) (distance c) v (sensitivity c).
End CameraControls.

(** The joystick widget [createJoystick] appends to the page: its [left] and
    [top] style, and the translation of its inner knob, once set. *)
Module Joystick.
Record t (T : Type) := mk { left : T; top : T; knob : option (T * T) }.
Arguments mk {T}.
Arguments left {T}.
Arguments top {T}.
Arguments knob {T}.
End Joystick.

(** [this.input.touch.move] *)
Module MoveTouch.
Record t (T : Type) := mk {
  id : option Z;
  start : Vector2.t T;
  current : Vector2.t T;
  joystick : option (Joystick.t T)
}.
Arguments mk {T}.
Arguments id {T}.
Arguments start {T}.
Arguments current {T}.
Arguments joystick {T}.
End MoveTouch.

(** [this.input.touch.look] *)
Module LookTouch.
Record t (T : Type) := mk { id : option Z; start : Vector2.t T }.
Arguments mk {T}.
Arguments id {T}.
Arguments start {T}.
End LookTouch.

Module Input.
Record t (T : Type) := mk {
  move : Vector2.t T;
  look : Vector2.t T;
  keys : gset string;
  touch_move : MoveTouch.t T;
  touch_look : LookTouch.t T
}.
Arguments mk {T}.
Arguments move {T}.
Arguments look {T}.
Arguments keys {T}.
Arguments touch_move {T}.
Arguments touch_look {T}.

Definition set_move {T} (v : Vector2.t T) (i : t T) : t T :=
  mk v (look i) (keys i) (touch_move i) (touch_look i).
Definition set_look {T} (v : Vector2.t T) (i : t T) : t T :=
  mk (move i) v (keys i) (touch_move i) (touch_look i).
Definition set_keys {T} (k : gset string) (i : t T) : t T :=
  mk (move i) (look i) k (touch_move i) (touch_look i).
Definition set_touch_move {T} (m : MoveTouch.t T) (i : t T) : t T :=
  mk (move i) (look i) (keys i) m (touch_look i).
Definition set_touch_look {T} (l : LookTouch.t T) (i : t T) : t T :=
  mk (move i) (look i) (keys i) (touch_move i) l.
End Input.

(** An entry of [this.colliders]: [{ position, radius }]. *)
Module Collider.
Record t (T : Type) := mk { position : Vector3.t T; radius : T }.
Arguments mk {T}.
Arguments position {T}.
Arguments radius {T}.
End Collider.

(** [this.camera]: its position, and the eye and target of the last
    [lookAt], which fix its orientation. *)
Module Camera.
Record t (T : Type) := mk {
  position : Vector3.t T;
  lookedAt : option (Vector3.t T * Vector3.t T)
}.
Arguments mk {T}.
Arguments position {T}.
Arguments lookedAt {T}.
End Camera.

Module Game.
Record t (T : Type) := mk {
  camera : Camera.t T;
  player : Player.t T;
  walkAction : option (Action.t T);
  cameraControls : CameraControls.t T;
  input : Input.t T;
  colliders : list (Collider.t T);
  isTouchDevice : bool
}.
Arguments mk {T}.
Arguments camera {T}.
Arguments player {T}.
Arguments walkAction {T}.
Arguments cameraControls {T}.
Arguments input {T}.
Arguments colliders {T}.
Arguments isTouchDevice {T}.

Definition set_camera {T} (c : Camera.t T) (g : t T) : t T :=
  mk c (player g) (walkAction g) (cameraControls g) (input g) (colliders g)
     (isTouchDevice g).
Definition set_player {T} (p : Player.t T) (g : t T) : t T :=
  mk (camera g) p (walkAction g) (cameraControls g) (input g) (colliders g)
     (isTouchDevice g).
Definition set_walkAction {T} (a : option (Action.t T)) (g : t T) : t T :=
  mk (camera g) (player g) a (cameraControls g) (input g) (colliders g)
     (isTouchDevice g).
Definition set_cameraControls {T} (c : CameraControls.t T) (g : t T) : t T :=
  mk (camera g) (player g) (walkAction g) c (input g) (colliders g)
     (isTouchDevice g).
Definition set_input {T} (i : Input.t T) (g : t T) : t T :=
  mk (camera g) (player g) (walkAction g) (cameraControls g) i (colliders g)
     (isTouchDevice g).
End Game.

(** What the code takes from outside the repository and neither instance of
    [Number] computes: the transcendental functions of [Math], and the two
    [THREE] methods that depend on the library's rotation conventions. *)
Class Extern (T : Type) := {
  Math_atan2 : T -> T -> T;
  Math_sin : T -> T;
  Math_cos : T -> T;
  (* [v.applyAxisAngle(axis, angle)] *)
  applyAxisAngle : Vector3.t T -> Vector3.t T -> T -> Vector3.t T;
  (* [camera.getWorldDirection(target)] *)
  getWorldDirection : Camera.t T -> Vector3.t T
}.

(** An event handler either completes or throws, with the state as it is
    then. *)
Inductive Completion (A : Type) : Type :=
| Normal (a : A)
| Throw (a : A).
Arguments Normal {A}.
Arguments Throw {A}.

(** [for (let i = 0; i < touches.length; i++) body(touches[i])] *)
Fixpoint forEach {A G : Type} (body : G -> A -> Completion G) (l : list A) (g : G)
  : Completion G :=
  match l with
  | [] => Normal g
  | a :: l' =>
      match body g a with
      | Normal g' => forEach body l' g'
      | Throw g' => Throw g'
      end
  end.

(** * The methods of [Game] *)

Section Methods.
Context {T : Type} `{Number T}.
Local Open Scope num_scope.

(** The constructor's state, before the model is loaded.  The colliders are
    those [generateScenery] registers, in registration order; the device
    kind is ['ontouchstart' in window]. *)
Definition constructor (colliders : list (Collider.t T)) (isTouchDevice : bool)
  : Game.t T :=
  Game.mk
    (Camera.mk Vector3.zero None)
    (Player.mk None Vector3.zero (of_Z 2) (of_Z 5) (of_Z 0) (decimal 4 10))
    None
    (CameraControls.mk (of_Z 0) (- PI / of_Z 4) (of_Z 5) Vector3.zero
       (decimal 6 1000))
    (Input.mk Vector2.zero Vector2.zero ∅
       (MoveTouch.mk None Vector2.zero Vector2.zero None)
       (LookTouch.mk None Vector2.zero))
    colliders
    isTouchDevice.

(** ** Keyboard and mouse ([setupControls], [onMouseMove]) *)

Definition keydown (g : Game.t T) (code : string) : Game.t T :=
  Game.set_input (Input.set_keys ({[ code ]} ∪ Input.keys (Game.input g)) (Game.input g)) g.

Definition keyup (g : Game.t T) (code : string) : Game.t T :=
  Game.set_input (Input.set_keys (Input.keys (Game.input g) ∖ {[ code ]}) (Game.input g)) g.

Definition onMouseMove (g : Game.t T) (movementX movementY : T) : Game.t T :=
  let look := Input.look (Game.input g) in
  let sensitivity := CameraControls.sensitivity (Game.cameraControls g) in
  let look := Vector2.mk (Vector2.x look + movementX * sensitivity) (Vector2.y look) in
  let look := Vector2.mk (Vector2.x look) (Vector2.y look + movementY * sensitivity) in
  Game.set_input (Input.set_look look (Game.input g)) g.

(** ** The joystick widget *)

Definition removeJoystick (g : Game.t T) : Game.t T :=
  let moveTouch := Input.touch_move (Game.input g) in
  match MoveTouch.joystick moveTouch with
  | Some _ =>
      Game.set_input
        (Input.set_touch_move
           (MoveTouch.mk (MoveTouch.id moveTouch) (MoveTouch.start moveTouch)
              (MoveTouch.current moveTouch) None)
           (Game.input g)) g
  | None => g
  end.

Definition createJoystick (g : Game.t T) (position : Vector2.t T) : Game.t T :=
  let g :=
    match MoveTouch.joystick (Input.touch_move (Game.input g)) with
    | Some _ => removeJoystick g
    | None => g
    end in
  let joystick :=
    Joystick.mk (Vector2.x position - of_Z 60) (Vector2.y position - of_Z 60) None in
  let moveTouch := Input.touch_move (Game.input g) in
  Game.set_input
    (Input.set_touch_move
       (MoveTouch.mk (MoveTouch.id moveTouch) (MoveTouch.start moveTouch)
          (MoveTouch.current moveTouch) (Some joystick))
       (Game.input g)) g.

(** ** Touch handlers *)

(** [touch.identifier === slot.id]: a number is never [===] to [null]. *)
Definition sameId (identifier : Z) (id : option Z) : bool :=
  match id with
  | Some i => Z.eqb identifier i
  | None => false
  end.

Definition isNull (id : option Z) : bool :=
  match id with Some _ => false | None => true end.

(** The body of the loop of [onTouchStart]; [innerWidth] is
    [window.innerWidth] when the event is handled. *)
Definition onTouchStart_touch (innerWidth : T) (g : Game.t T) (touch : Touch.t T)
  : Completion (Game.t T) :=
  let isLeftSide := Touch.clientX touch <? innerWidth / of_Z 2 in
  if isLeftSide && isNull (MoveTouch.id (Input.touch_move (Game.input g))) then
    let moveTouch := Input.touch_move (Game.input g) in
    let start := Vector2.mk (Touch.clientX touch) (Touch.clientY touch) in
    let moveTouch :=
      MoveTouch.mk (Some (Touch.identifier touch)) start start
        (MoveTouch.joystick moveTouch) in
    let g := Game.set_input (Input.set_touch_move moveTouch (Game.input g)) g in
    Normal (createJoystick g start)
  else if negb isLeftSide && isNull (LookTouch.id (Input.touch_look (Game.input g))) then
    let lookTouch :=
      LookTouch.mk (Some (Touch.identifier touch))
        (Vector2.mk (Touch.clientX touch) (Touch.clientY touch)) in
    Normal (Game.set_input (Input.set_touch_look lookTouch (Game.input g)) g)
  else Normal g.

Definition onTouchStart (innerWidth : T) (g : Game.t T) (changedTouches : list (Touch.t T))
  : Completion (Game.t T) :=
  forEach (onTouchStart_touch innerWidth) changedTouches g.

(** The body of the loop of [onTouchEnd], which also serves [touchcancel]. *)
Definition onTouchEnd_touch (g : Game.t T) (touch : Touch.t T) : Completion (Game.t T) :=
  if sameId (Touch.identifier touch) (MoveTouch.id (Input.touch_move (Game.input g))) then
    let g := Game.set_input (Input.set_move (Vector2.mk (of_Z 0) (of_Z 0)) (Game.input g)) g in
    let g := Game.set_player (Player.set_currentSpeed (of_Z 0) (Game.player g)) g in
    let g := removeJoystick g in
    let moveTouch := Input.touch_move (Game.input g) in
    Normal
      (Game.set_input
         (Input.set_touch_move
            (MoveTouch.mk None (MoveTouch.start moveTouch) (MoveTouch.current moveTouch)
               (MoveTouch.joystick moveTouch))
            (Game.input g)) g)
  else if sameId (Touch.identifier touch) (LookTouch.id (Input.touch_look (Game.input g))) then
    let lookTouch := Input.touch_look (Game.input g) in
    Normal
      (Game.set_input
         (Input.set_touch_look (LookTouch.mk None (LookTouch.start lookTouch))
            (Game.input g)) g)
  else Normal g.

Definition onTouchEnd (g : Game.t T) (changedTouches : list (Touch.t T))
  : Completion (Game.t T) :=
  forEach onTouchEnd_touch changedTouches g.

(** ** The collision resolver *)

(** The body of the loop of [checkCollisions]. *)
Definition checkCollisions_collider (playerRadius : T) (newPosition : Vector3.t T)
    (collider : Collider.t T) : Vector3.t T :=
  let dx := Vector3.x newPosition - Vector3.x (Collider.position collider) in
  let dz := Vector3.z newPosition - Vector3.z (Collider.position collider) in
  let distance := nsqrt (dx * dx + dz * dz) in
  let minDistance := playerRadius + Collider.radius collider in
  if distance <? minDistance then
    let overlap := minDistance - distance in
    let pushVector :=
      Vector3.multiplyScalar (Vector3.normalize (Vector3.mk dx (of_Z 0) dz)) overlap in
    Vector3.add newPosition pushVector
  else newPosition.

(** [checkCollisions(newPosition)] mutates its argument; the corrected
    position is returned. *)
Definition checkCollisions (g : Game.t T) (newPosition : Vector3.t T) : Vector3.t T :=
  match Player.mesh (Game.player g) with
  | None => newPosition
  | Some _ =>
      let playerRadius := Player.collisionRadius (Game.player g) in
      fold_left (checkCollisions_collider playerRadius) (Game.colliders g) newPosition
  end.

(** The model loader's callback: the mesh enters the scene at height 0 (its
    bounding box fixes only the scale), with [walkAction] set when the file
    has an animation. *)
Definition onModelLoaded (g : Game.t T) (mesh : Mesh.t T) (hasAnimation : bool)
  : Game.t T :=
  let mesh :=
    Mesh.mk
      (Vector3.mk (Vector3.x (Mesh.position mesh)) (of_Z 0) (Vector3.z (Mesh.position mesh)))
      (Mesh.rotation_y mesh) in
  let g := Game.set_player (Player.set_mesh (Some mesh) (Game.player g)) g in
  if hasAnimation then Game.set_walkAction (Some (Action.mk false (of_Z 1))) g else g.

(** ** The per-frame input update *)

Definition has (keys : gset string) (code : string) : bool := bool_decide (code ∈ keys).

Definition updateInput (g : Game.t T) (deltaTime : T) : Game.t T :=
  let g :=
    if negb (Game.isTouchDevice g) then
      let keys := Input.keys (Game.input g) in
      let move := Vector2.mk (of_Z 0) (of_Z 0) in
      let move := if has keys "KeyW" then Vector2.mk (Vector2.x move) (of_Z 1) else move in
      let move := if has keys "KeyS" then Vector2.mk (Vector2.x move) (of_Z (-1)) else move in
      let move := if has keys "KeyA" then Vector2.mk (of_Z (-1)) (Vector2.y move) else move in
      let move := if has keys "KeyD" then Vector2.mk (of_Z 1) (Vector2.y move) else move in
      let g := Game.set_input (Input.set_move move (Game.input g)) g in
      let currentSpeed :=
        if has keys "ShiftLeft" then Player.sprintSpeed (Game.player g)
        else Player.baseSpeed (Game.player g) in
      Game.set_player (Player.set_currentSpeed currentSpeed (Game.player g)) g
    else g in
  let look := Input.look (Game.input g) in
  let controls := Game.cameraControls g in
  let controls := CameraControls.set_phi (Vector2.y look) controls in
  let controls := CameraControls.set_theta (Vector2.x look) controls in
  let controls :=
    CameraControls.set_phi
      (nmax (- PI / of_Z 3) (nmin (PI / of_Z 3) (CameraControls.phi controls)))
      controls in
  Game.set_cameraControls controls g.

End Methods.

Section ExternMethods.
Context {T : Type} `{Number T} `{Extern T}.
Local Open Scope num_scope.

(** [THREE.Vector2.angle]: the angle of the vector from the positive x axis. *)
Definition Vector2_angle (v : Vector2.t T) : T :=
  Math_atan2 (- Vector2.y v) (- Vector2.x v) + PI.

(** The body of the loop of [onTouchMove].  It throws a [TypeError] when the
    move slot is tracked and there is no joystick widget to query. *)
Definition onTouchMove_touch (g : Game.t T) (touch : Touch.t T) : Completion (Game.t T) :=
  if sameId (Touch.identifier touch) (MoveTouch.id (Input.touch_move (Game.input g))) then
    let moveTouch := Input.touch_move (Game.input g) in
    let moveTouch :=
      MoveTouch.mk (MoveTouch.id moveTouch) (MoveTouch.start moveTouch)
        (Vector2.mk (Touch.clientX touch) (Touch.clientY touch))
        (MoveTouch.joystick moveTouch) in
    let g := Game.set_input (Input.set_touch_move moveTouch (Game.input g)) g in
    let diff := Vector2.sub (MoveTouch.current moveTouch) (MoveTouch.start moveTouch) in
    let maxDist := of_Z 60 in
    let dist := nmin (Vector2.length diff) maxDist in
    let angle := Vector2_angle diff in
    match MoveTouch.joystick moveTouch with
    | None => Throw g
    | Some joystick =>
        let joystick :=
          Joystick.mk (Joystick.left joystick) (Joystick.top joystick)
            (Some (Math_cos angle * dist, Math_sin angle * dist)) in
        let moveTouch :=
          MoveTouch.mk (MoveTouch.id moveTouch) (MoveTouch.start moveTouch)
            (MoveTouch.current moveTouch) (Some joystick) in
        let g := Game.set_input (Input.set_touch_move moveTouch (Game.input g)) g in
        let inputVec := Vector2.normalize diff in
        let g :=
          Game.set_input
            (Input.set_move (Vector2.mk (- Vector2.x inputVec) (- Vector2.y inputVec))
               (Game.input g)) g in
        let speedRatio := dist / maxDist in
        let player := Game.player g in
        Normal
          (Game.set_player
             (Player.set_currentSpeed
                (MathUtils.lerp (Player.baseSpeed player) (Player.sprintSpeed player)
                   speedRatio)
                player) g)
    end
  else if sameId (Touch.identifier touch) (LookTouch.id (Input.touch_look (Game.input g))) then
    let lookTouch := Input.touch_look (Game.input g) in
    let dx := Touch.clientX touch - Vector2.x (LookTouch.start lookTouch) in
    let dy := Touch.clientY touch - Vector2.y (LookTouch.start lookTouch) in
    let sensitivity := CameraControls.sensitivity (Game.cameraControls g) in
    let look := Input.look (Game.input g) in
    let look := Vector2.mk (Vector2.x look - dx * sensitivity) (Vector2.y look) in
    let look := Vector2.mk (Vector2.x look) (Vector2.y look + dy * sensitivity) in
    let g := Game.set_input (Input.set_look look (Game.input g)) g in
    let lookTouch :=
      LookTouch.mk (LookTouch.id lookTouch)
        (Vector2.mk (Touch.clientX touch) (Touch.clientY touch)) in
    Normal (Game.set_input (Input.set_touch_look lookTouch (Game.input g)) g)
  else Normal g.

Definition onTouchMove (g : Game.t T) (changedTouches : list (Touch.t T))
  : Completion (Game.t T) :=
  forEach onTouchMove_touch changedTouches g.

(** ** The per-frame update *)

(** [updatePlayer(deltaTime)], called by [update] when the mesh [mesh] is
    loaded. *)
Definition updatePlayer (mesh : Mesh.t T) (g : Game.t T) (deltaTime : T) : Game.t T :=
  let move := Input.move (Game.input g) in
  let player := Game.player g in
  let velocity :=
    if Vector2.lengthSq move =? of_Z 0 then
      Vector3.lerp (Player.velocity player) (Vector3.mk (of_Z 0) (of_Z 0) (of_Z 0))
        (of_Z 10 * deltaTime)
    else
      let moveDirection :=
        Vector3.normalize (Vector3.mk (Vector2.x move) (of_Z 0) (Vector2.y move)) in
      let cameraDirection := getWorldDirection (Game.camera g) in
      let angle := Math_atan2 (Vector3.x cameraDirection) (Vector3.z cameraDirection) in
      let moveDirection :=
        applyAxisAngle moveDirection (Vector3.mk (of_Z 0) (of_Z 1) (of_Z 0)) angle in
      let speed :=
        if Game.isTouchDevice g then Player.currentSpeed player
        else if Vector2.length move >? of_Z 0 then Player.currentSpeed player
        else of_Z 0 in
      let targetVelocity := Vector3.multiplyScalar moveDirection speed in
      Vector3.lerp (Player.velocity player) targetVelocity (of_Z 10 * deltaTime) in
  let g := Game.set_player (Player.set_velocity velocity player) g in
  let moveDelta := Vector3.multiplyScalar velocity deltaTime in
  let newPosition := Vector3.add (Mesh.position mesh) moveDelta in
  let newPosition := checkCollisions g newPosition in
  let mesh := Mesh.mk newPosition (Mesh.rotation_y mesh) in
  let g := Game.set_player (Player.set_mesh (Some mesh) (Game.player g)) g in
  if Vector3.lengthSq velocity >? decimal 1 100 then
    let targetAngle := Math_atan2 (Vector3.x velocity) (Vector3.z velocity) in
    let mesh :=
      Mesh.mk (Mesh.position mesh)
        (MathUtils.lerp (Mesh.rotation_y mesh) targetAngle (of_Z 15 * deltaTime)) in
    let g := Game.set_player (Player.set_mesh (Some mesh) (Game.player g)) g in
    let speedRatio := Vector3.length velocity / Player.sprintSpeed (Game.player g) in
    match Game.walkAction g with
    | Some walkAction =>
        Game.set_walkAction
          (Some (Action.mk true (MathUtils.lerp (decimal 5 10) (of_Z 2) speedRatio)))
          g
    | None => g
    end
  else
    match Game.walkAction g with
    | Some walkAction =>
        if Action.isRunning walkAction then
          Game.set_walkAction (Some (Action.mk false (Action.timeScale walkAction))) g
        else g
    | None => g
    end.

Definition updateCamera (g : Game.t T) (deltaTime : T) : Game.t T :=
  match Player.mesh (Game.player g) with
  | None => g
  | Some mesh =>
      let controls := Game.cameraControls g in
      let target :=
        Vector3.lerp (CameraControls.target controls) (Mesh.position mesh)
          (of_Z 15 * deltaTime) in
      let controls := CameraControls.set_target target controls in
      let g := Game.set_cameraControls controls g in
      let offset :=
        Vector3.mk
          (CameraControls.distance controls * Math_sin (CameraControls.theta controls)
           * Math_cos (CameraControls.phi controls))
          (CameraControls.distance controls * Math_sin (CameraControls.phi controls))
          (CameraControls.distance controls * Math_cos (CameraControls.theta controls)
           * Math_cos (CameraControls.phi controls)) in
      let cameraPosition := Vector3.add target offset in
      let position :=
        Vector3.lerp (Camera.position (Game.camera g)) cameraPosition
          (of_Z 15 * deltaTime) in
      let lookTarget := Vector3.add target (Vector3.mk (of_Z 0) (of_Z 1) (of_Z 0)) in
      Game.set_camera (Camera.mk position (Some (position, lookTarget))) g
  end.

(** [update(deltaTime)]; the mixer's own update belongs to the library. *)
Definition update (g : Game.t T) (deltaTime : T) : Game.t T :=
  let g := updateInput g deltaTime in
  match Player.mesh (Game.player g) with
  | Some mesh => updateCamera (updatePlayer mesh g deltaTime) deltaTime
  | None => g
  end.

(** ** Events between frames

    One call of a listener.  [setupControls] registers the touch listeners
    on a touch device, and the key and mouse listeners otherwise. *)

Inductive Event : Type :=
| KeyDown (code : string)
| KeyUp (code : string)
| MouseMove (movementX movementY : T)
| TouchStart (innerWidth : T) (changedTouches : list (Touch.t T))
| TouchMove (changedTouches : list (Touch.t T))
| TouchEnd (changedTouches : list (Touch.t T)).

(** The state a handler leaves behind, whether it returns or throws. *)
Definition settle (c : Completion (Game.t T)) : Game.t T :=
  match c with
  | Normal g => g
  | Throw g => g
  end.

Definition dispatch (g : Game.t T) (e : Event) : Game.t T :=
  if Game.isTouchDevice g then
    match e with
    | TouchStart innerWidth changedTouches =>
        settle (onTouchStart innerWidth g changedTouches)
    | TouchMove changedTouches => settle (onTouchMove g changedTouches)
    | TouchEnd changedTouches => settle (onTouchEnd g changedTouches)
    | _ => g
    end
  else
    match e with
    | KeyDown code => keydown g code
    | KeyUp code => keyup g code
    | MouseMove movementX movementY => onMouseMove g movementX movementY
    | _ => g
    end.

(** [n] consecutive frames of the same duration, with no event in between. *)
Definition frames (n : nat) (deltaTime : T) (g : Game.t T) : Game.t T :=
  Nat.iter n (fun g => update g deltaTime) g.

End ExternMethods.

Arguments Event T : clear implicits.

(** * Scenes and predicates of the statements *)

Section Scenes.
Context {T : Type} `{Number T}.
Local Open Scope num_scope.

(** A keyboard-mode game whose model is loaded, standing at the origin. *)
Definition arena (colliders : list (Collider.t T)) : Game.t T :=
  onModelLoaded (constructor colliders false) (Mesh.mk Vector3.zero (of_Z 0)) true.

(** The same on a touch device. *)
Definition touchArena (colliders : list (Collider.t T)) : Game.t T :=
  onModelLoaded (constructor colliders true) (Mesh.mk Vector3.zero (of_Z 0)) true.

(** Two colliders with radii that [generateScenery] gives to tree crowns: one
    of radius 1 at the origin, and one of radius 1.4 at [(1.5, 0)]. *)
Definition colliderA : Collider.t T :=
  Collider.mk (Vector3.mk (of_Z 0) (of_Z 0) (of_Z 0)) (of_Z 1).

(** The candidate position [(0.5, 0, 0)]. *)
Definition candidateA : Vector3.t T := Vector3.mk (decimal 5 10) (of_Z 0) (of_Z 0).

(** The origin, where [colliderA] stands. *)
Definition centreA : Vector3.t T := Vector3.mk (of_Z 0) (of_Z 0) (of_Z 0).

(** Keyboard mode with both the left and the right key held. *)
Definition leftAndRight : Game.t T := keydown (keydown (arena []) "KeyA") "KeyD".

(** Keyboard mode with no key held, the avatar moving at speed 1 along x. *)
Definition coasting : Game.t T :=
  Game.set_player
    (Player.set_velocity (Vector3.mk (of_Z 1) (of_Z 0) (of_Z 0)) (Game.player (arena [])))
    (arena []).

(** A touch that began at [(100, 300)], in the left half of a window 800
    wide, and is tracked as the joystick; and the state it leaves. *)
Definition touchDown : Touch.t T := Touch.mk 7 (of_Z 100) (of_Z 300).
Definition heldJoystick : Game.t T :=
  let start := Vector2.mk (of_Z 100) (of_Z 300) in
  let g := touchArena [] in
  Game.set_input
    (Input.set_touch_move
       (MoveTouch.mk (Some 7%Z) start start
          (Some (Joystick.mk (of_Z 100 - of_Z 60) (of_Z 300 - of_Z 60) None)))
       (Game.input g)) g.

(** The same touch, dragged 30 pixels to the right. *)
Definition drag30 : Touch.t T := Touch.mk 7 (of_Z 130) (of_Z 300).

(** A touch no slot tracks. *)
Definition strayTouch : Touch.t T := Touch.mk 9 (of_Z 500) (of_Z 200).

(** The [distance] that [checkCollisions] computes between a position and
    the centre of a collider, on the ground plane. *)
Definition planarDistance (p : Vector3.t T) (c : Collider.t T) : T :=
  let dx := Vector3.x p - Vector3.x (Collider.position c) in
  let dz := Vector3.z p - Vector3.z (Collider.position c) in
  nsqrt (dx * dx + dz * dz).

(** No key or joystick asks for movement: in keyboard mode none of the four
    movement keys is held, in touch mode the move vector is zero. *)
Definition restInput (g : Game.t T) : bool :=
  if Game.isTouchDevice g then Vector2.lengthSq (Input.move (Game.input g)) =? of_Z 0
  else
    let keys := Input.keys (Game.input g) in
    negb (has keys "KeyW") && negb (has keys "KeyS")
    && negb (has keys "KeyA") && negb (has keys "KeyD").

(** The move vector as the specification words it: each axis is the sum of
    the contributions of its two keys. *)
Definition spec_moveVector (keys : gset string) : Vector2.t T :=
  Vector2.mk
    ((if has keys "KeyD" then of_Z 1 else of_Z 0)
     + (if has keys "KeyA" then of_Z (-1) else of_Z 0))
    ((if has keys "KeyW" then of_Z 1 else of_Z 0)
     + (if has keys "KeyS" then of_Z (-1) else of_Z 0)).

(** The move slot is tracked exactly when its joystick widget exists. *)
Definition joystickTracked (g : Game.t T) : Prop :=
  MoveTouch.id (Input.touch_move (Game.input g)) = None
  <-> MoveTouch.joystick (Input.touch_move (Game.input g)) = None.

(** The drag of a joystick touch: its distance from where the touch began. *)
Definition dragDistance (g : Game.t T) (touch : Touch.t T) : T :=
  Vector2.length
    (Vector2.sub (Vector2.mk (Touch.clientX touch) (Touch.clientY touch))
       (MoveTouch.start (Input.touch_move (Game.input g)))).



End Scenes.

(** In exact arithmetic: the position is exactly at the centre of the
    collider, on the ground plane. *)
Definition coincides (p : Vector3.t R) (c : Collider.t R) : Prop :=
  Vector3.x p = Vector3.x (Collider.position c)
  /\ Vector3.z p = Vector3.z (Collider.position c).

(** In exact arithmetic: a body of radius [r] at [p] is clear of the collider
    [c], up to [eps]. *)
Definition clears (eps r : R) (p : Vector3.t R) (c : Collider.t R) : Prop :=
  (r + Collider.radius c - eps <= planarDistance p c)%R.

Local Open Scope R_scope.

(** ** The library functions over the reals

    The statements below hold for every instance of [Extern]; this one,
    which follows the library's definitions, serves to evaluate them. *)

Definition R_atan2 (y x : R) : R :=
  if Rlt_dec 0 x then atan (y / x)
  else if Rlt_dec x 0 then
    if Rle_dec 0 y then atan (y / x) + Rtrigo1.PI else atan (y / x) - Rtrigo1.PI
  else if Rlt_dec 0 y then Rtrigo1.PI / 2
  else if Rlt_dec y 0 then - Rtrigo1.PI / 2
  else 0.

(** Rotation of [v] by the quaternion of [angle] about the unit [axis]. *)
Definition R_applyAxisAngle (v axis : Vector3.t R) (angle : R) : Vector3.t R :=
  let s := sin (angle / 2) in
  let qx := Vector3.x axis * s in
  let qy := Vector3.y axis * s in
  let qz := Vector3.z axis * s in
  let qw := cos (angle / 2) in
  let vx := Vector3.x v in
  let vy := Vector3.y v in
  let vz := Vector3.z v in
  let tx := 2 * (qy * vz - qz * vy) in
  let ty := 2 * (qz * vx - qx * vz) in
  let tz := 2 * (qx * vy - qy * vx) in
  Vector3.mk (vx + qw * tx + qy * tz - qz * ty)
             (vy + qw * ty + qz * tx - qx * tz)
             (vz + qw * tz + qx * ty - qy * tx).

(** A camera looks down its negative z axis, which [lookAt] points from the
    target to the eye. *)
Definition R_getWorldDirection (camera : Camera.t R) : Vector3.t R :=
  match Camera.lookedAt camera with
  | None => Vector3.mk 0 0 (-1)
  | Some (eye, target) =>
      let zAxis :=
        Vector3.mk (Vector3.x eye - Vector3.x target) (Vector3.y eye - Vector3.y target)
          (Vector3.z eye - Vector3.z target) in
      let zAxis := if Reqb (Vector3.lengthSq zAxis) 0 then Vector3.mk 0 0 1 else zAxis in
      Vector3.multiplyScalar (Vector3.normalize zAxis) (-1)
  end.

#[export] Instance R_Extern : Extern R := {|
  Math_atan2 := R_atan2;
  Math_sin := sin;
  Math_cos := cos;
  applyAxisAngle := R_applyAxisAngle;
  getWorldDirection := R_getWorldDirection
|}.

(** * The rest of the class

    ** Scenery ([generateScenery], [getRandomPosition])

    [Math.random()] is an oracle: the numbers it returns, in call order, are
    the list [randoms], and a function that draws returns what is left of
    it.  The meshes added to the scene belong to the rendering collaborator;
    the draws that only shape them are consumed all the same. *)

Section Scenery.
Context {T : Type} `{Number T}.
Local Open Scope num_scope.

(** [getRandomPosition(mapSize, safeZone)].  Each pass of the do-while loop
    draws [x] and [z]; the result is [None] when the draws run out before a
    pass leaves the safe zone. *)
Fixpoint getRandomPosition (mapSize safeZone : T) (randoms : list T)
  : option (Vector3.t T * list T) :=
  match randoms with
  | a :: b :: rest =>
      let x := a * mapSize - mapSize / of_Z 2 in
      let z := b * mapSize - mapSize / of_Z 2 in
      if nsqrt (x * x + z * z) <? safeZone then getRandomPosition mapSize safeZone rest
      else Some (Vector3.mk x (of_Z 0) z, rest)
  | _ => None
  end.

(** The first loop of [generateScenery], [n] passes: a position, then the
    draws of [trunkHeight], [trunkRadius] and [crownRadius]; the collider
    pushed has the radius of the crown. *)
Fixpoint generateTrees (n : nat) (mapSize safeZone : T) (colliders : list (Collider.t T))
    (randoms : list T) : option (list (Collider.t T) * list T) :=
  match n with
  | O => Some (colliders, randoms)
  | S n' =>
      match getRandomPosition mapSize safeZone randoms with
      | Some (pos, trunkHeightDraw :: trunkRadiusDraw :: crownRadiusDraw :: rest) =>
          let crownRadius := of_Z 1 + crownRadiusDraw * decimal 5 10 in
          generateTrees n' mapSize safeZone (colliders ++ [Collider.mk pos crownRadius]) rest
      | _ => None
      end
  end.

(** The second loop, [n] passes: a position, then the draw of [rockSize]. *)
Fixpoint generateRocks (n : nat) (mapSize safeZone : T) (colliders : list (Collider.t T))
    (randoms : list T) : option (list (Collider.t T) * list T) :=
  match n with
  | O => Some (colliders, randoms)
  | S n' =>
      match getRandomPosition mapSize safeZone randoms with
      | Some (pos, rockSizeDraw :: rest) =>
          let rockSize := rockSizeDraw * decimal 5 10 + decimal 3 10 in
          generateRocks n' mapSize safeZone (colliders ++ [Collider.mk pos rockSize]) rest
      | _ => None
      end
  end.

(** [generateScenery()], from the colliders registered so far. *)
Definition generateScenery (colliders : list (Collider.t T)) (randoms : list T)
  : option (list (Collider.t T) * list T) :=
  let treeCount := 100%nat in
  let rockCount := 50%nat in
  let mapSize := of_Z 480 in
  let safeZone := of_Z 10 in
  match generateTrees treeCount mapSize safeZone colliders randoms with
  | Some (colliders, randoms) => generateRocks rockCount mapSize safeZone colliders randoms
  | None => None
  end.


End Scenery.

(** ** Pointer lock ([setupPointerLock])

    What the page holds for the desktop controls: how many [mousemove]
    listeners are registered on the document, and whether the instructions
    are displayed. *)

Module Page.
Record t : Type := mk { mousemoveListeners : nat; instructionsShown : bool }.
End Page.

(** The [pointerlockchange] listener; [locked] is
    [document.pointerLockElement === canvas].  [this.onMouseMove.bind(this)]
    is a new function at every evaluation: adding it registers one more
    listener, and removing it removes nothing, since that function was never
    registered. *)
Definition onPointerLockChange (locked : bool) (page : Page.t) : Page.t :=
  if locked then Page.mk (S (Page.mousemoveListeners page)) false
  else Page.mk (Page.mousemoveListeners page) true.

Section Runs.
Context {T : Type} `{Number T} `{Extern T}.

(** One [mousemove] event of the document: every registered listener calls
    [onMouseMove]. *)
Definition mousemove (page : Page.t) (g : Game.t T) (movementX movementY : T) : Game.t T :=
  Nat.iter (Page.mousemoveListeners page) (fun g => onMouseMove g movementX movementY) g.

(** What happens to a game after its construction: a listener is called, a
    frame is animated, or the model finishes loading. *)
Inductive Step : Type :=
| Handle (e : Event T)
| Frame (deltaTime : T)
| ModelLoaded (mesh : Mesh.t T) (hasAnimation : bool).

Definition step (g : Game.t T) (s : Step) : Game.t T :=
  match s with
  | Handle e => dispatch g e
  | Frame deltaTime => update g deltaTime
  | ModelLoaded mesh hasAnimation => onModelLoaded g mesh hasAnimation
  end.

Definition run (steps : list Step) (g : Game.t T) : Game.t T := fold_left step steps g.

(** A drag of the touch [i] along a path of positions, one touch-move event
    for each. *)
Definition dragLook (i : Z) (path : list (T * T)) (g : Game.t T) : Game.t T :=
  fold_left (fun g xy => settle (onTouchMove g [Touch.mk i (fst xy) (snd xy)])) path g.

End Runs.

Arguments Step T : clear implicits.

Section MoreScenes.
Context {T : Type} `{Number T}.
Local Open Scope num_scope.


(** The look slot tracks a touch with identifier 3 that began at
    [(600, 200)]. *)
Definition heldLook : Game.t T :=
  let g := touchArena [] in
  Game.set_input
    (Input.set_touch_look
       (LookTouch.mk (Some 3%Z) (Vector2.mk (of_Z 600) (of_Z 200))) (Game.input g)) g.

(** The loaded avatar stands at [(3, 0, 4)], next to [colliderA], on a
    desktop; the camera's follow target is still at the origin. *)
Definition standingAvatar : Game.t T :=
  onModelLoaded (constructor [colliderA] false)
    (Mesh.mk (Vector3.mk (of_Z 3) (of_Z 0) (of_Z 4)) (of_Z 0)) true.

End MoreScenes.




(** In exact arithmetic: draws whose position [getRandomPosition] accepts
    at once, the x coordinate alone lying outside the safe zone. *)
Definition offCentre (randoms : list R) : Prop :=
  Forall (fun a => a <= 23 / 48 \/ 25 / 48 <= a) randoms.

(** The distance between two points, as [THREE.Vector3.distanceTo]
    computes it. *)
Definition distanceTo (a b : Vector3.t R) : R :=
  sqrt ((Vector3.x a - Vector3.x b) * (Vector3.x a - Vector3.x b)
        + (Vector3.y a - Vector3.y b) * (Vector3.y a - Vector3.y b)
        + (Vector3.z a - Vector3.z b) * (Vector3.z a - Vector3.z b)).

(** In exact arithmetic: the avatar stands still at the position of [m], no
    movement is asked for, and no collider pushes it. *)
Definition standing (g : Game.t R) (m : Mesh.t R) : Prop :=
  Player.mesh (Game.player g) = Some m
  /\ restInput g = true
  /\ Player.velocity (Game.player g) = Vector3.mk 0 0 0
  /\ forall c, In c (Game.colliders g) ->
       coincides (Mesh.position m) c
       \/ clears 0 (Player.collisionRadius (Game.player g)) (Mesh.position m) c.
(** * Properties

    ** The tests of the source, in exact arithmetic *)

Lemma Rltb_true a b : a < b -> Rltb a b = true.
Proof. unfold Rltb. destruct (Rlt_dec a b); [reflexivity | contradiction]. Qed.

Lemma Rltb_false a b : b <= a -> Rltb a b = false.
Proof. unfold Rltb. destruct (Rlt_dec a b); [lra | reflexivity]. Qed.

Lemma Reqb_true a b : a = b -> Reqb a b = true.
Proof. unfold Reqb. destruct (Req_dec_T a b); [reflexivity | contradiction]. Qed.

Lemma Reqb_false a b : a <> b -> Reqb a b = false.
Proof. unfold Reqb. destruct (Req_dec_T a b); [contradiction | reflexivity]. Qed.

Lemma sum_squares_nonneg a b : 0 <= a * a + b * b.
Proof. nra. Qed.

(** ** The collision resolver *)

Section Resolver.
Implicit Types (r d : R) (p q : Vector3.t R) (c : Collider.t R).
Implicit Types (cs : list (Collider.t R)) (g : Game.t R) (m : Mesh.t R).
Local Arguments planarDistance : simpl never.

Lemma planarDistance_unfold p c :
  planarDistance p c =
  sqrt ((Vector3.x p - Vector3.x (Collider.position c))
        * (Vector3.x p - Vector3.x (Collider.position c))
        + (Vector3.z p - Vector3.z (Collider.position c))
          * (Vector3.z p - Vector3.z (Collider.position c))).
Proof. reflexivity. Qed.


Lemma planarDistance_zero p c : planarDistance p c = 0 <-> coincides p c.
Proof.
  rewrite planarDistance_unfold. unfold coincides. split.
  - intros H.
    set (dx := Vector3.x p - Vector3.x (Collider.position c)) in *.
    set (dz := Vector3.z p - Vector3.z (Collider.position c)) in *.
    apply sqrt_eq_0 in H; [| apply sum_squares_nonneg].
    assert (dx = 0) by nra. assert (dz = 0) by nra. unfold dx, dz in *. split; lra.
  - intros [-> ->]. rewrite !Rminus_diag, Rmult_0_l, Rplus_0_l. apply sqrt_0.
Qed.

Lemma planarDistance_eq p c d :
  0 <= d ->
  d * d = (Vector3.x p - Vector3.x (Collider.position c))
          * (Vector3.x p - Vector3.x (Collider.position c))
          + (Vector3.z p - Vector3.z (Collider.position c))
            * (Vector3.z p - Vector3.z (Collider.position c)) ->
  planarDistance p c = d.
Proof.
  intros Hd Hsq. rewrite planarDistance_unfold.
  apply sqrt_lem_1; [apply sum_squares_nonneg | exact Hd | exact Hsq].
Qed.

(** The length [normalize] divides by is the planar distance: the vector it
    is given has no vertical component. *)
Lemma length_planar p c :
  Vector3.length (Vector3.mk (Vector3.x p - Vector3.x (Collider.position c)) 0
                             (Vector3.z p - Vector3.z (Collider.position c)))
  = planarDistance p c.
Proof. rewrite planarDistance_unfold. unfold Vector3.length. cbn. f_equal. ring. Qed.

(** No overlap: the position is left alone. *)
Lemma collider_far r p c :
  r + Collider.radius c <= planarDistance p c -> checkCollisions_collider r p c = p.
Proof.
  intros Hfar. unfold checkCollisions_collider. cbn.
  rewrite <- (planarDistance_unfold p c). rewrite Rltb_false by exact Hfar. reflexivity.
Qed.

(** At the centre, [normalize] leaves the zero vector as it is, and the push
    vector is zero. *)
Lemma collider_center r p c :
  coincides p c -> checkCollisions_collider r p c = p.
Proof.
  intros Hc. pose proof (proj2 (planarDistance_zero p c) Hc) as Hd.
  unfold checkCollisions_collider. cbn. rewrite <- (planarDistance_unfold p c).
  destruct (Rltb _ _); [| reflexivity].
  unfold Vector3.normalize, Vector3.divideScalar, Vector3.multiplyScalar, Vector3.add.
  rewrite (length_planar p c), Hd. cbn.
  rewrite Reqb_true by reflexivity. cbn.
  destruct p as [px py pz]. destruct Hc as [Hx Hz]. cbn in Hx, Hz |- *.
  subst px pz. f_equal; field.
Qed.

(** An overlap away from the centre: the position the push leads to. *)
Lemma collider_push r p c d :
  planarDistance p c = d -> 0 < d < r + Collider.radius c ->
  checkCollisions_collider r p c =
  Vector3.mk
    (Vector3.x p + (Vector3.x p - Vector3.x (Collider.position c)) * (1 / d)
                   * (r + Collider.radius c - d))
    (Vector3.y p)
    (Vector3.z p + (Vector3.z p - Vector3.z (Collider.position c)) * (1 / d)
                   * (r + Collider.radius c - d)).
Proof.
  intros Hd [Hpos Hlt].
  unfold checkCollisions_collider. cbn. rewrite <- (planarDistance_unfold p c).
  rewrite Hd, Rltb_true by exact Hlt.
  unfold Vector3.normalize, Vector3.divideScalar, Vector3.multiplyScalar, Vector3.add.
  rewrite (length_planar p c), Hd. cbn.
  rewrite Reqb_false by lra. cbn. f_equal. lra.
Qed.



Lemma collider_y r p c : Vector3.y (checkCollisions_collider r p c) = Vector3.y p.
Proof.
  unfold checkCollisions_collider. cbn.
  destruct (Rltb _ _); cbn; [lra | reflexivity].
Qed.


(** *** The loop *)

Lemma checkCollisions_loaded g m p :
  Player.mesh (Game.player g) = Some m ->
  checkCollisions g p =
  fold_left (checkCollisions_collider (Player.collisionRadius (Game.player g)))
    (Game.colliders g) p.
Proof. intros Hm. unfold checkCollisions. rewrite Hm. reflexivity. Qed.

(** A position that every collider either clears or has at its centre is a
    fixed point of the loop. *)
Lemma loop_fixed r cs p :
  (forall c, In c cs -> coincides p c \/ clears 0 r p c) ->
  fold_left (checkCollisions_collider r) cs p = p.
Proof.
  induction cs as [| c cs IH]; intros Hall; [reflexivity |].
  cbn [fold_left].
  assert (Hc : checkCollisions_collider r p c = p).
  { destruct (Hall c (or_introl eq_refl)) as [Hco | Hcl].
    - apply collider_center, Hco.
    - apply collider_far. unfold clears in Hcl. lra. }
  rewrite Hc. apply IH. intros c' Hin. apply Hall. right. exact Hin.
Qed.

Lemma loop_y r cs p :
  Vector3.y (fold_left (checkCollisions_collider r) cs p) = Vector3.y p.
Proof.
  revert p. induction cs as [| c cs IH]; intros p; [reflexivity |].
  cbn [fold_left]. rewrite IH. apply collider_y.
Qed.


(** A candidate exactly at the centre of a collider is not pushed by it: the
    push vector is the zero vector.  When every collider either has the
    candidate at its centre or is cleared by it, [checkCollisions] returns
    the candidate unchanged, still at distance 0 from that centre. *)
Lemma checkCollisions_center_unmoved g m c p :
  Player.mesh (Game.player g) = Some m ->
  In c (Game.colliders g) ->
  coincides p c ->
  (forall c', In c' (Game.colliders g) ->
     coincides p c' \/ clears 0 (Player.collisionRadius (Game.player g)) p c') ->
  checkCollisions g p = p /\ planarDistance (checkCollisions g p) c = 0.
Proof.
  intros Hm Hin Hc Hall.
  rewrite (checkCollisions_loaded g m p Hm), loop_fixed by exact Hall.
  split; [reflexivity |]. apply planarDistance_zero, Hc.
Qed.


(** C10.  [checkCollisions] leaves the y coordinate of the position as it
    is: every push vector it adds has a zero y component. *)
Theorem checkCollisions_y_unchanged g p :
  Vector3.y (checkCollisions g p) = Vector3.y p.
Proof.
  unfold checkCollisions. destruct (Player.mesh (Game.player g)); [| reflexivity].
  apply loop_y.
Qed.

End Resolver.

(** *** Concrete runs *)

Ltac distance_is d := apply (planarDistance_eq _ _ d); cbn; lra.

(** The innermost call overlaps, at distance [d]. *)
Ltac pushed d :=
  match goal with
  | |- context [checkCollisions_collider ?r (Vector3.mk ?a ?b ?e) ?c] =>
      rewrite (collider_push r (Vector3.mk a b e) c d);
      [| distance_is d | cbn; lra]; cbn
  end.






(** C2.  The code at a candidate that coincides with the centre of
    [colliderA]: the overlap branch is entered, but the push vector is
    [Vector3(0, 0, 0).normalize().multiplyScalar(overlap)], the zero vector.
    In exact arithmetic and in binary64 the candidate is returned as it is,
    finite, at distance 0 from the centre: it is not pushed along any
    direction. *)
Theorem centre_not_pushed :
  checkCollisions (T:=R) (arena [colliderA]) centreA = centreA
  /\ planarDistance (checkCollisions (T:=R) (arena [colliderA]) centreA) colliderA = 0
  /\ checkCollisions (T:=PrimFloat.float) (arena [colliderA]) centreA = centreA.
Proof.
  assert (Hc : checkCollisions (T:=R) (arena [colliderA]) centreA = centreA).
  { unfold checkCollisions. cbn. apply collider_center. split; reflexivity. }
  split; [exact Hc |]. split.
  - rewrite Hc. apply planarDistance_zero. split; reflexivity.
  - vm_compute. reflexivity.
Qed.

(** C6.  Scenario A: with [colliderA] alone (centre [(0, 0)], radius 1), body
    radius 0.4 and candidate [(0.5, 0, 0)], the corrected position is
    [(1.4, 0, 0)], in exact arithmetic and in binary64: pushed along +x to
    [x = 1.4], with z unchanged at 0. *)
Theorem scenario_A :
  checkCollisions (T:=R) (arena [colliderA]) candidateA = Vector3.mk (14 / 10) 0 0
  /\ checkCollisions (T:=PrimFloat.float) (arena [colliderA]) candidateA
     = Vector3.mk (decimal 14 10) (of_Z 0) (of_Z 0).
Proof.
  split.
  - unfold checkCollisions, arena, candidateA, colliderA, decimal. cbn.
    pushed (1/2). f_equal; lra.
  - vm_compute. reflexivity.
Qed.



(** ** Handlers and the input update, for every number type *)

Section Handlers.
Context {T : Type} `{Number T}.

Lemma forEach_id {A G : Type} (body : G -> A -> Completion G) (l : list A) (g : G) :
  (forall a, In a l -> body g a = Normal g) -> forEach body l g = Normal g.
Proof.
  induction l as [| a l IH]; intros Hall; [reflexivity |].
  cbn [forEach]. rewrite (Hall a (or_introl eq_refl)).
  apply IH. intros b Hb. apply Hall. right. exact Hb.
Qed.

(** C9.  A touch-end or touch-cancel event none of whose touches has the
    identifier tracked by the move slot or by the look slot returns normally
    and leaves the whole state as it was. *)
Theorem onTouchEnd_untracked (g : Game.t T) (changedTouches : list (Touch.t T)) :
  (forall touch, In touch changedTouches ->
     sameId (Touch.identifier touch) (MoveTouch.id (Input.touch_move (Game.input g))) = false
     /\ sameId (Touch.identifier touch) (LookTouch.id (Input.touch_look (Game.input g))) = false) ->
  onTouchEnd g changedTouches = Normal g.
Proof.
  intros Hun. unfold onTouchEnd. apply forEach_id.
  intros touch Hin. destruct (Hun touch Hin) as [Hmove Hlook].
  unfold onTouchEnd_touch. rewrite Hmove, Hlook. reflexivity.
Qed.

(** C3, as amended.  In keyboard mode the move vector after [updateInput]
    has x = +1 if the right key is held, else -1 if the left key is held,
    else 0, and y = -1 if the back key is held, else +1 if the forward key is
    held, else 0: of two opposing keys the one tested last wins. *)
Theorem updateInput_move_keyboard (g : Game.t T) (deltaTime : T) :
  Game.isTouchDevice g = false ->
  let keys := Input.keys (Game.input g) in
  Input.move (Game.input (updateInput g deltaTime)) =
  Vector2.mk
    (if has keys "KeyD" then of_Z 1 else if has keys "KeyA" then of_Z (-1) else of_Z 0)
    (if has keys "KeyS" then of_Z (-1) else if has keys "KeyW" then of_Z 1 else of_Z 0).
Proof.
  intros Hkb keys. unfold updateInput. rewrite Hkb. cbn [negb].
  fold keys.
  destruct (has keys "KeyW"), (has keys "KeyS"), (has keys "KeyA"), (has keys "KeyD");
    reflexivity.
Qed.
End Handlers.

Lemma onTouchEnd_untracked_witness :
  onTouchEnd (T:=R) heldJoystick [strayTouch] = Normal heldJoystick.
Proof.
  apply onTouchEnd_untracked. intros touch [<- | []]. split; reflexivity.
Defined.

Lemma updateInput_move_keyboard_witness :
  Input.move (Game.input (updateInput (T:=R) (keydown (arena []) "KeyW") 0))
  = Vector2.mk 0 1.
Proof.
  refine (eq_trans (updateInput_move_keyboard (keydown (arena []) "KeyW") 0 eq_refl) _).
  vm_compute. reflexivity.
Defined.

(** C3 fails as stated: with the left and the right key both held the x
    axis of the move vector is 1, not the sum 0 of the two contributions, in
    exact arithmetic and in binary64. *)
Lemma opposing_keys_do_not_cancel :
  Input.move (Game.input (updateInput (T:=R) leftAndRight 0)) = Vector2.mk 1 0
  /\ Vector2.x (spec_moveVector (T:=R) (Input.keys (Game.input leftAndRight))) = 0
  /\ Input.move (Game.input (updateInput (T:=PrimFloat.float) leftAndRight (of_Z 0)))
     = Vector2.mk (of_Z 1) (of_Z 0).
Proof.
  split; [| split].
  - vm_compute. reflexivity.
  - vm_compute. lra.
  - vm_compute. reflexivity.
Qed.

(** ** What each step of the frame leaves alone, for every number type *)

Section FrameEffects.
Context {T : Type} `{Number T} `{Extern T}.
Implicit Types (g : Game.t T) (m : Mesh.t T) (dt : T).

Lemma updateInput_frame g dt :
  Game.isTouchDevice (updateInput g dt) = Game.isTouchDevice g
  /\ Input.keys (Game.input (updateInput g dt)) = Input.keys (Game.input g)
  /\ Input.touch_move (Game.input (updateInput g dt)) = Input.touch_move (Game.input g)
  /\ Player.mesh (Game.player (updateInput g dt)) = Player.mesh (Game.player g)
  /\ Player.velocity (Game.player (updateInput g dt)) = Player.velocity (Game.player g).
Proof.
  unfold updateInput. destruct g as [cam pl wa cc inp cols [|]]; cbn; repeat split; reflexivity.
Qed.

Lemma updatePlayer_frame m g dt :
  Game.input (updatePlayer m g dt) = Game.input g
  /\ Game.isTouchDevice (updatePlayer m g dt) = Game.isTouchDevice g
  /\ Game.cameraControls (updatePlayer m g dt) = Game.cameraControls g
  /\ exists m', Player.mesh (Game.player (updatePlayer m g dt)) = Some m'.
Proof.
  unfold updatePlayer.
  destruct (Vector2.lengthSq _ =? _)%num; cbn;
    destruct (_ >? _)%num; cbn;
    destruct (Game.walkAction g) as [[[] ?] |]; cbn; eauto 10.
Qed.

Lemma updateCamera_frame g dt :
  Game.input (updateCamera g dt) = Game.input g
  /\ Game.isTouchDevice (updateCamera g dt) = Game.isTouchDevice g
  /\ Game.player (updateCamera g dt) = Game.player g
  /\ CameraControls.phi (Game.cameraControls (updateCamera g dt))
     = CameraControls.phi (Game.cameraControls g).
Proof.
  unfold updateCamera. destruct (Player.mesh (Game.player g)); cbn; repeat split; reflexivity.
Qed.

(** With no movement asked for, [updatePlayer] interpolates the velocity
    towards zero with the unclamped factor [10 * dt]. *)
Lemma updatePlayer_rest_velocity m g dt :
  (Vector2.lengthSq (Input.move (Game.input g)) =? of_Z 0)%num = true ->
  Player.velocity (Game.player (updatePlayer m g dt)) =
  Vector3.lerp (Player.velocity (Game.player g))
    (Vector3.mk (of_Z 0) (of_Z 0) (of_Z 0)) (of_Z 10 * dt)%num.
Proof.
  intros Hrest. unfold updatePlayer. rewrite Hrest. cbn.
  destruct (_ >? _)%num; cbn;
    destruct (Game.walkAction g) as [[[] ?] |]; cbn; reflexivity.
Qed.

End FrameEffects.

(** ** The frame, in exact arithmetic *)

Section Frames.
Context `{Extern R}.
Implicit Types (g : Game.t R) (m : Mesh.t R) (dt : R).

Lemma updateInput_phi g dt :
  - PI / 3 <= CameraControls.phi (Game.cameraControls (updateInput g dt)) <= PI / 3.
Proof.
  pose proof PI_RGT_0 as Hpi.
  unfold updateInput. destruct (negb (Game.isTouchDevice g)); cbn.
  all: split; [apply Rmax_l |].
  all: apply Rmax_lub; [lra | apply Rmin_l].
Qed.

Lemma updateInput_rest g dt :
  restInput g = true ->
  (Vector2.lengthSq (Input.move (Game.input (updateInput g dt))) =? of_Z 0)%num = true.
Proof.
  unfold restInput, updateInput.
  destruct (Game.isTouchDevice g); cbn; [auto |].
  destruct (has _ "KeyW"), (has _ "KeyS"), (has _ "KeyA"), (has _ "KeyD");
    cbn; try discriminate.
  intros _. apply Reqb_true. lra.
Qed.

Lemma update_rest g m dt :
  Player.mesh (Game.player g) = Some m ->
  restInput g = true ->
  Player.velocity (Game.player (update g dt)) =
    Vector3.lerp (Player.velocity (Game.player g)) (Vector3.mk 0 0 0) (10 * dt)
  /\ restInput (update g dt) = true
  /\ exists m', Player.mesh (Game.player (update g dt)) = Some m'.
Proof.
  intros Hm Hrest.
  destruct (updateInput_frame g dt) as (Htouch & Hkeys & _ & Hmesh & Hvel).
  pose proof (updateInput_rest g dt Hrest) as Hzero.
  unfold update. rewrite Hmesh, Hm.
  set (g1 := updateInput g dt) in *.
  destruct (updatePlayer_frame m g1 dt) as (Hin2 & Htouch2 & _ & m' & Hmesh2).
  destruct (updateCamera_frame (updatePlayer m g1 dt) dt) as (Hin3 & Htouch3 & Hpl3 & _).
  rewrite Hpl3. split; [| split].
  - rewrite (updatePlayer_rest_velocity m g1 dt Hzero), Hvel. reflexivity.
  - unfold restInput in *. rewrite Htouch3, Htouch2, Htouch, Hin3, Hin2.
    destruct (Game.isTouchDevice g); [exact Hzero |].
    rewrite Hkeys. exact Hrest.
  - exists m'. exact Hmesh2.
Qed.

Lemma frames_S n dt g : frames (S n) dt g = update (frames n dt g) dt.
Proof. reflexivity. Qed.

Lemma frames_rest g m dt n :
  Player.mesh (Game.player g) = Some m ->
  restInput g = true ->
  let v := Player.velocity (Game.player g) in
  Player.velocity (Game.player (frames n dt g)) =
    Vector3.multiplyScalar v ((1 - 10 * dt) ^ n)
  /\ restInput (frames n dt g) = true
  /\ exists m', Player.mesh (Game.player (frames n dt g)) = Some m'.
Proof.
  intros Hm Hrest v. induction n as [| n (Hv & Hr & m' & Hm')].
  - cbn. repeat split; [| exact Hrest | exists m; exact Hm].
    unfold v, Vector3.multiplyScalar. destruct (Player.velocity (Game.player g)). cbn.
    f_equal; lra.
  - rewrite frames_S.
    destruct (update_rest _ m' dt Hm' Hr) as (Hv' & Hr' & Hm'').
    repeat split; [| exact Hr' | exact Hm''].
    rewrite Hv', Hv. unfold Vector3.lerp, Vector3.multiplyScalar. cbn. f_equal; lra.
Qed.

Lemma length_multiplyScalar (v : Vector3.t R) k :
  Vector3.length (Vector3.multiplyScalar v k) = Rabs k * Vector3.length v.
Proof.
  unfold Vector3.length, Vector3.multiplyScalar. cbn.
  set (s := Vector3.x v * Vector3.x v + Vector3.y v * Vector3.y v + Vector3.z v * Vector3.z v).
  assert (Hs : 0 <= s) by (unfold s; nra).
  apply sqrt_lem_1.
  - nra.
  - apply Rmult_le_pos; [apply Rabs_pos | apply sqrt_pos].
  - transitivity ((Rabs k * Rabs k) * (sqrt s * sqrt s)); [ring |].
    rewrite sqrt_sqrt by exact Hs.
    replace (Rabs k * Rabs k) with (k * k); [unfold s; ring |].
    unfold Rabs. destruct (Rcase_abs k); ring.
Qed.

Lemma scaled_below (k L eps : R) :
  Rabs k < 1 -> 0 <= L -> 0 < eps ->
  exists N, forall n, (N <= n)%nat -> Rabs (k ^ n) * L < eps.
Proof.
  intros Hk HL Heps.
  assert (Hpos : 0 < eps / (L + 1)) by (apply Rdiv_lt_0_compat; lra).
  destruct (pow_lt_1_zero k Hk (eps / (L + 1)) Hpos) as [N HN].
  exists N. intros n Hn. specialize (HN n Hn).
  apply Rle_lt_trans with (Rabs (k ^ n) * (L + 1)).
  - apply Rmult_le_compat_l; [apply Rabs_pos | lra].
  - apply Rmult_lt_reg_r with (/ (L + 1)); [apply Rinv_0_lt_compat; lra |].
    replace (Rabs (k ^ n) * (L + 1) * / (L + 1)) with (Rabs (k ^ n)) by (field; lra).
    exact HN.
Qed.

(** C4, as amended.  With the model loaded and no movement asked for, a
    frame sets velocity to lerp(velocity, 0, 10 * dt): the factor is not
    clamped to 1.  Consequently, for every starting velocity and every fixed
    dt with 0 < dt < 1/5, enough such frames bring the magnitude of the
    velocity below any eps > 0. *)
Theorem rest_velocity_decays g m dt :
  Player.mesh (Game.player g) = Some m ->
  restInput g = true ->
  Player.velocity (Game.player (update g dt)) =
    Vector3.lerp (Player.velocity (Game.player g)) (Vector3.mk 0 0 0) (10 * dt)
  /\ (0 < dt < 1 / 5 ->
      forall eps, 0 < eps ->
      exists N, forall n, (N <= n)%nat ->
        Vector3.length (Player.velocity (Game.player (frames n dt g))) < eps).
Proof.
  intros Hm Hrest. split; [apply (update_rest g m dt Hm Hrest) |].
  intros Hdt eps Heps.
  destruct (scaled_below (1 - 10 * dt) (Vector3.length (Player.velocity (Game.player g))) eps)
    as [N HN]; [apply Rabs_def1; lra | apply sqrt_pos | exact Heps |].
  exists N. intros n Hn.
  destruct (frames_rest g m dt n Hm Hrest) as (Hv & _).
  rewrite Hv, length_multiplyScalar. apply HN, Hn.
Qed.

(** C5.  Whatever events came before, after [updateInput], and after the
    whole [update], the pitch [cameraControls.phi] lies in [-PI/3, PI/3]. *)
Theorem pitch_clamped g (events : list (Event R)) dt :
  let g' := fold_left dispatch events g in
  (- PI / 3 <= CameraControls.phi (Game.cameraControls (updateInput g' dt)) <= PI / 3)
  /\ (- PI / 3 <= CameraControls.phi (Game.cameraControls (update g' dt)) <= PI / 3).
Proof.
  intros g'. split; [apply updateInput_phi |].
  unfold update. destruct (Player.mesh (Game.player (updateInput g' dt))) as [m |].
  - destruct (updateCamera_frame (updatePlayer m (updateInput g' dt) dt) dt) as (_ & _ & _ & Hphi).
    destruct (updatePlayer_frame m (updateInput g' dt) dt) as (_ & _ & Hcc & _).
    rewrite Hphi, Hcc. apply updateInput_phi.
  - apply updateInput_phi.
Qed.
End Frames.

Lemma rest_velocity_decays_witness :
  Player.velocity (Game.player (update (T:=R) coasting (1 / 10))) =
    Vector3.lerp (Player.velocity (Game.player (coasting (T:=R)))) (Vector3.mk 0 0 0) (10 * (1 / 10))
  /\ (0 < 1 / 10 < 1 / 5 ->
      forall eps, 0 < eps ->
      exists N, forall n, (N <= n)%nat ->
        Vector3.length (Player.velocity (Game.player (frames (T:=R) n (1 / 10) coasting))) < eps).
Proof.
  apply (rest_velocity_decays coasting (Mesh.mk (Vector3.mk 0 0 0) 0) (1 / 10)).
  - reflexivity.
  - vm_compute. reflexivity.
Defined.

(** C4 fails as stated: in a frame of one second a velocity of 1 along x
    becomes -9, where the clamped interpolation would give 0. *)
Lemma long_frame_overshoots :
  Player.velocity (Game.player (update (T:=R) coasting 1)) = Vector3.mk (-9) 0 0
  /\ Vector3.lerp (Player.velocity (Game.player (coasting (T:=R)))) (Vector3.mk 0 0 0)
       (Rmin 1 (10 * 1)) = Vector3.mk 0 0 0.
Proof.
  split.
  - destruct (update_rest coasting (Mesh.mk (Vector3.mk 0 0 0) 0) 1) as (Hv & _).
    + reflexivity.
    + vm_compute. reflexivity.
    + rewrite Hv. unfold Vector3.lerp. cbn. f_equal; lra.
  - rewrite Rmin_left by lra. unfold Vector3.lerp. cbn. f_equal; lra.
Qed.

(** With frames of one second the magnitude grows ninefold each frame. *)
Lemma long_frames_diverge n :
  Vector3.length (Player.velocity (Game.player (frames (T:=R) n 1 coasting))) = 9 ^ n.
Proof.
  destruct (frames_rest coasting (Mesh.mk (Vector3.mk 0 0 0) 0) 1 n) as (Hv & _).
  - reflexivity.
  - vm_compute. reflexivity.
  - rewrite Hv, length_multiplyScalar.
    replace (1 - 10 * 1) with (-9) by lra.
    replace (Vector3.length (Player.velocity (Game.player (coasting (T:=R))))) with 1.
    + rewrite <- RPow_abs. replace (Rabs (-9)) with 9; [ring |].
      unfold Rabs. destruct (Rcase_abs (-9)); lra.
    + symmetry. unfold Vector3.length. cbn. apply sqrt_lem_1; lra.
Qed.

(** ** The joystick, in exact arithmetic *)

Section JoystickSpeed.
Context `{Extern R}.
Implicit Types (g : Game.t R) (touch : Touch.t R).






End JoystickSpeed.



(** ** The joystick widget exists exactly while the move slot is tracked *)

Section Tracker.
Context {T : Type} `{Number T} `{Extern T}.
Implicit Types (g : Game.t T) (touch : Touch.t T).

Lemma forEach_settle (P : Game.t T -> Prop)
    (body : Game.t T -> Touch.t T -> Completion (Game.t T)) (l : list (Touch.t T)) g :
  (forall g a, P g -> P (settle (body g a))) -> P g -> P (settle (forEach body l g)).
Proof.
  intros Hbody. revert g. induction l as [| a l IH]; intros g Hg; [exact Hg |].
  cbn [forEach]. specialize (Hbody g a Hg).
  destruct (body g a) as [g' | g']; [apply IH, Hbody | exact Hbody].
Qed.

Lemma constructor_tracked colliders isTouchDevice :
  joystickTracked (constructor (T:=T) colliders isTouchDevice).
Proof. split; reflexivity. Qed.

Lemma onTouchStart_touch_tracked innerWidth g touch :
  joystickTracked g -> joystickTracked (settle (onTouchStart_touch innerWidth g touch)).
Proof.
  intros Htr. unfold onTouchStart_touch.
  destruct (_ && _).
  - unfold joystickTracked, createJoystick, removeJoystick. cbn.
    destruct (MoveTouch.joystick (Input.touch_move (Game.input g))); cbn; split; discriminate.
  - destruct (_ && _); exact Htr.
Qed.

Lemma onTouchMove_touch_tracked g touch :
  joystickTracked g -> joystickTracked (settle (onTouchMove_touch g touch)).
Proof.
  intros Htr. unfold onTouchMove_touch.
  destruct (sameId _ (MoveTouch.id _)) eqn:Hid.
  - cbn. destruct (MoveTouch.joystick (Input.touch_move (Game.input g))) as [j |] eqn:Hj.
    + unfold joystickTracked in *. cbn. rewrite Hj in Htr.
      split; intros Hn; [apply Htr in Hn |]; discriminate.
    + unfold joystickTracked in *. cbn. rewrite Hj in Htr. exact Htr.
  - destruct (sameId _ (LookTouch.id _)); exact Htr.
Qed.

Lemma onTouchEnd_touch_tracked g touch :
  joystickTracked g -> joystickTracked (settle (onTouchEnd_touch g touch)).
Proof.
  intros Htr. unfold onTouchEnd_touch.
  destruct (sameId _ (MoveTouch.id _)).
  - unfold joystickTracked, removeJoystick. cbn.
    destruct (MoveTouch.joystick (Input.touch_move (Game.input g))) eqn:Hj; cbn;
      rewrite ?Hj; split; reflexivity.
  - destruct (sameId _ (LookTouch.id _)); exact Htr.
Qed.

Lemma dispatch_tracked g (e : Event T) : joystickTracked g -> joystickTracked (dispatch g e).
Proof.
  intros Htr. unfold dispatch.
  destruct (Game.isTouchDevice g), e; try exact Htr;
    unfold onTouchStart, onTouchMove, onTouchEnd.
  - apply (forEach_settle joystickTracked); [intros; apply onTouchStart_touch_tracked; assumption | exact Htr].
  - apply (forEach_settle joystickTracked); [intros; apply onTouchMove_touch_tracked; assumption | exact Htr].
  - apply (forEach_settle joystickTracked); [intros; apply onTouchEnd_touch_tracked; assumption | exact Htr].
Qed.

Lemma update_tracked g deltaTime : joystickTracked g -> joystickTracked (update g deltaTime).
Proof.
  intros Htr. unfold joystickTracked, update.
  destruct (updateInput_frame g deltaTime) as (_ & _ & Hslot & _).
  destruct (Player.mesh (Game.player (updateInput g deltaTime))) as [m |].
  - destruct (updateCamera_frame (updatePlayer m (updateInput g deltaTime) deltaTime) deltaTime)
      as (-> & _).
    destruct (updatePlayer_frame m (updateInput g deltaTime) deltaTime) as (-> & _).
    rewrite Hslot. exact Htr.
  - rewrite Hslot. exact Htr.
Qed.

Lemma onTouchMove_touch_returns g touch :
  joystickTracked g -> exists g', onTouchMove_touch g touch = Normal g'.
Proof.
  intros Htr. unfold onTouchMove_touch.
  destruct (sameId _ (MoveTouch.id _)) eqn:Hid.
  - cbn. destruct (MoveTouch.joystick (Input.touch_move (Game.input g))) as [j |] eqn:Hj.
    + eexists. reflexivity.
    + apply Htr in Hj. rewrite Hj in Hid. discriminate.
  - destruct (sameId _ (LookTouch.id _)); eexists; reflexivity.
Qed.

Lemma onTouchMove_returns g (changedTouches : list (Touch.t T)) :
  joystickTracked g -> exists g', onTouchMove g changedTouches = Normal g'.
Proof.
  revert g. induction changedTouches as [| touch l IH]; intros g Htr.
  - exists g. reflexivity.
  - destruct (onTouchMove_touch_returns g touch Htr) as [g1 Hstep].
    pose proof (onTouchMove_touch_tracked g touch Htr) as Htr1.
    rewrite Hstep in Htr1. destruct (IH g1 Htr1) as [g' Hrest].
    exists g'. unfold onTouchMove in *. cbn [forEach]. rewrite Hstep. exact Hrest.
Qed.
End Tracker.

(** ** The clamp of the pitch, in binary64 *)

Section Binary64Clamp.
Import PrimFloat SpecFloat FloatOps FloatAxioms.

Lemma SFcompare_antisym a b : SFcompare b a = option_map CompOpp (SFcompare a b).
Proof.
  destruct a as [s1 | s1 | | s1 m1 e1], b as [s2 | s2 | | s2 m2 e2]; cbn;
    try destruct s1; try destruct s2; cbn; try reflexivity.
  all: rewrite (Z.compare_antisym e1 e2); destruct (e1 ?= e2)%Z; cbn; try reflexivity.
  all: pose proof (Pos.compare_cont_antisym m1 m2 Eq) as Ha; cbn in Ha; rewrite <- Ha;
    destruct (Pos.compare_cont Eq m1 m2); reflexivity.
Qed.

Lemma SFcompare_None a b :
  SFcompare a b = None -> SFcompare a a = None \/ SFcompare b b = None.
Proof.
  destruct a as [s1 | s1 | | s1 m1 e1], b as [s2 | s2 | | s2 m2 e2]; cbn;
    try discriminate; auto.
Qed.

(** For numbers other than [NaN], [a < b] failing means [b <= a]. *)
Lemma float_ltb_false_leb (a b : float) :
  Binary64.is_nan a = false -> Binary64.is_nan b = false ->
  ltb a b = false -> leb b a = true.
Proof.
  unfold Binary64.is_nan. rewrite !eqb_spec, ltb_spec, leb_spec.
  unfold SFeqb, SFltb, SFleb. rewrite (SFcompare_antisym (Prim2SF a) (Prim2SF b)).
  destruct (SFcompare (Prim2SF a) (Prim2SF b)) as [[] |] eqn:Hc; cbn; try easy.
  intros Ha Hb _. destruct (SFcompare_None _ _ Hc) as [Hn | Hn]; rewrite Hn in *; discriminate.
Qed.

Lemma float_ltb_leb (a b : float) : ltb a b = true -> leb a b = true.
Proof.
  rewrite ltb_spec, leb_spec. unfold SFltb, SFleb.
  destruct (SFcompare _ _) as [[] |]; easy.
Qed.

Lemma float_leb_refl (a : float) : Binary64.is_nan a = false -> leb a a = true.
Proof.
  unfold Binary64.is_nan. rewrite eqb_spec, leb_spec. unfold SFeqb, SFleb.
  destruct (SFcompare _ _) as [[] |]; easy.
Qed.

(** [Math.min] and [Math.max] return one of their arguments, unless one is
    [NaN]. *)
Lemma float_min_cases (a b : float) :
  Binary64.is_nan a = false -> Binary64.is_nan b = false ->
  (Binary64.min a b = a /\ leb a b = true) \/ (Binary64.min a b = b /\ leb b a = true).
Proof.
  intros Ha Hb. unfold Binary64.min. rewrite Ha, Hb. cbn.
  destruct (ltb a b) eqn:Hab; [left; auto using float_ltb_leb |].
  destruct (ltb b a) eqn:Hba; [right; auto using float_ltb_leb |].
  destruct (classify a); auto using float_ltb_false_leb.
Qed.

Lemma float_max_cases (a b : float) :
  Binary64.is_nan a = false -> Binary64.is_nan b = false ->
  (Binary64.max a b = a /\ leb b a = true) \/ (Binary64.max a b = b /\ leb a b = true).
Proof.
  intros Ha Hb. unfold Binary64.max. rewrite Ha, Hb. cbn.
  destruct (ltb b a) eqn:Hba; [left; auto using float_ltb_leb |].
  destruct (ltb a b) eqn:Hab; [right; auto using float_ltb_leb |].
  destruct (classify a); auto using float_ltb_false_leb.
Qed.

(** [Math.max(lo, Math.min(hi, y))] lies between [lo] and [hi] for every
    [y] other than [NaN]. *)
Lemma clamp_binary64 (lo hi y : float) :
  leb lo hi = true -> Binary64.is_nan lo = false -> Binary64.is_nan hi = false ->
  Binary64.is_nan y = false ->
  leb lo (Binary64.max lo (Binary64.min hi y)) = true
  /\ leb (Binary64.max lo (Binary64.min hi y)) hi = true.
Proof.
  intros Hle Hlo Hhi Hy.
  destruct (float_min_cases hi y Hhi Hy) as [[-> Hm] | [-> Hm]].
  - destruct (float_max_cases lo hi Hlo Hhi) as [[-> _] | [-> _]]; auto using float_leb_refl.
  - destruct (float_max_cases lo y Hlo Hy) as [[-> _] | [-> Hc]]; auto using float_leb_refl.
Qed.

(** X18.  In binary64, after [updateInput] the pitch lies in [-PI/3, PI/3]
    whenever the accumulated look input is a number. *)
Lemma pitch_clamped_binary64 (g : Game.t float) (deltaTime : float) :
  Binary64.is_nan (Vector2.y (Input.look (Game.input g))) = false ->
  let phi := CameraControls.phi (Game.cameraControls (updateInput g deltaTime)) in
  leb (- PI / of_Z 3)%num phi = true /\ leb phi (PI / of_Z 3)%num = true.
Proof.
  intros Hy phi.
  assert (Hphi : phi = Binary64.max (- PI / of_Z 3)%num
                         (Binary64.min (PI / of_Z 3)%num
                            (Vector2.y (Input.look (Game.input g))))).
  { unfold phi, updateInput. destruct (negb (Game.isTouchDevice g)); reflexivity. }
  rewrite Hphi. apply clamp_binary64; [vm_compute; reflexivity .. | exact Hy].
Qed.
End Binary64Clamp.

(** ** Runs in binary64 *)

Section Binary64Runs.
Context `{Extern PrimFloat.float}.

(** Scenario C: a drag of 30 pixels asks for speed 3.5, halfway between
    2 and 5. *)
Lemma scenario_C_binary64 :
  Player.currentSpeed (Game.player (settle (onTouchMove heldJoystick [drag30])))
  = decimal 35 10.
Proof. vm_compute. reflexivity. Qed.

(** [heldJoystick] is the state a touch-start in the left half leaves. *)
Lemma touchStart_binary64 :
  onTouchStart (of_Z 800) (touchArena []) [touchDown] = Normal heldJoystick.
Proof. vm_compute. reflexivity. Qed.

(** An unbounded look delta saturates the pitch at [PI / 3]. *)
Lemma pitch_saturates_binary64 :
  CameraControls.phi
    (Game.cameraControls
       (updateInput (onMouseMove (arena []) (of_Z 0) PrimFloat.infinity) (of_Z 0)))
  = (PI / of_Z 3)%num.
Proof. vm_compute. reflexivity. Qed.
End Binary64Runs.

(** * Further properties of the code *)

(** ** The scenery, in exact arithmetic *)

Section SceneryFacts.
Implicit Types (randoms rest : list R) (pos p : Vector3.t R) (c : Collider.t R).
Implicit Types (colliders cs : list (Collider.t R)).




Lemma generateScenery_unfold colliders randoms :
  generateScenery colliders randoms =
  match generateTrees 100 480 10 colliders randoms with
  | Some (colliders', randoms') => generateRocks 50 480 10 colliders' randoms'
  | None => None
  end.
Proof. reflexivity. Qed.


Lemma getRandomPosition_accepts a b rest :
  a <= 23 / 48 \/ 25 / 48 <= a ->
  getRandomPosition 480 10 (a :: b :: rest)
  = Some (Vector3.mk (a * 480 - 480 / 2) 0 (b * 480 - 480 / 2), rest).
Proof.
  intros Ha. cbn [getRandomPosition]. cbn -[getRandomPosition].
  rewrite Rltb_false; [reflexivity |].
  rewrite <- (sqrt_square 10) at 1 by lra.
  apply sqrt_le_1_alt.
  assert (Hx : 100 <= (a * 480 - 480 / 2) * (a * 480 - 480 / 2)) by (destruct Ha; nra).
  pose proof (Rle_0_sqr (b * 480 - 480 / 2)) as Hz. unfold Rsqr in Hz. lra.
Qed.

Lemma generateTrees_returns n colliders randoms :
  offCentre randoms -> (5 * n <= length randoms)%nat ->
  exists cs rest, generateTrees n 480 10 colliders randoms = Some (cs, rest)
                  /\ offCentre rest /\ (length rest + 5 * n = length randoms)%nat.
Proof.
  revert colliders randoms. induction n as [| n IH]; intros colliders randoms Hoff Hlen.
  - exists colliders, randoms. repeat split; [exact Hoff | lia].
  - destruct randoms as [| a [| b [| h [| t [| crown rest]]]]]; cbn in Hlen; try lia.
    inversion Hoff as [| ? ? Ha Hoff1]; subst.
    do 4 (match goal with Hf : Forall _ (_ :: _) |- _ => inversion Hf; subst; clear Hf end).
    cbn [generateTrees]. rewrite (getRandomPosition_accepts a b _ Ha).
    edestruct (IH (colliders ++ [Collider.mk (Vector3.mk (a * 480 - 480 / 2) 0 (b * 480 - 480 / 2))
                                   (1 + crown * (5 / 10))]) rest)
      as (cs & rest' & Hgen & Hoff' & Hlen'); [eassumption | lia |].
    exists cs, rest'. repeat split; [exact Hgen | exact Hoff' | cbn; lia].
Qed.

Lemma generateRocks_returns n colliders randoms :
  offCentre randoms -> (3 * n <= length randoms)%nat ->
  exists cs rest, generateRocks n 480 10 colliders randoms = Some (cs, rest)
                  /\ offCentre rest /\ (length rest + 3 * n = length randoms)%nat.
Proof.
  revert colliders randoms. induction n as [| n IH]; intros colliders randoms Hoff Hlen.
  - exists colliders, randoms. repeat split; [exact Hoff | lia].
  - destruct randoms as [| a [| b [| size rest]]]; cbn in Hlen; try lia.
    inversion Hoff as [| ? ? Ha Hoff1]; subst.
    do 2 (match goal with Hf : Forall _ (_ :: _) |- _ => inversion Hf; subst; clear Hf end).
    cbn [generateRocks]. rewrite (getRandomPosition_accepts a b _ Ha).
    edestruct (IH (colliders ++ [Collider.mk (Vector3.mk (a * 480 - 480 / 2) 0 (b * 480 - 480 / 2))
                                   (size * (5 / 10) + 3 / 10)]) rest)
      as (cs & rest' & Hgen & Hoff' & Hlen'); [eassumption | lia |].
    exists cs, rest'. repeat split; [exact Hgen | exact Hoff' | cbn; lia].
Qed.

(** X2.  The rejection loop of [getRandomPosition] ends at its first pass
    when the x draw is not within 1/48 of 1/2: with at least 650 such draws
    [generateScenery] returns, having consumed exactly 650 of them (five per
    tree, three per rock). *)
Theorem generateScenery_returns colliders randoms :
  offCentre randoms -> (650 <= length randoms)%nat ->
  exists cs rest, generateScenery colliders randoms = Some (cs, rest)
                  /\ (length rest + 650 = length randoms)%nat.
Proof.
  intros Hoff Hlen. rewrite generateScenery_unfold.
  destruct (generateTrees_returns 100 colliders randoms Hoff ltac:(lia))
    as (cs1 & rest1 & Ht & Hoff1 & Hlen1).
  destruct (generateRocks_returns 50 cs1 rest1 Hoff1 ltac:(lia))
    as (cs & rest & Hr & _ & Hlen2).
  exists cs, rest. rewrite Ht. split; [exact Hr | lia].
Qed.
End SceneryFacts.


Lemma zeros_offCentre n : offCentre (repeat 0 n).
Proof. induction n as [| n IH]; cbn; constructor; [left; lra | exact IH]. Qed.

Lemma generateScenery_returns_witness :
  exists cs rest, generateScenery (T:=R) [] (repeat 0 650) = Some (cs, rest)
                  /\ (length rest + 650 = length (repeat 0 650))%nat.
Proof.
  apply (generateScenery_returns [] (repeat 0 650)).
  - apply zeros_offCentre.
  - rewrite repeat_length. lia.
Defined.



Section Spawn.
Implicit Types (p : Vector3.t R) (c : Collider.t R) (g : Game.t R).





End Spawn.


Local Close Scope R_scope.

(** ** Touch contacts, for every number type *)

Section Contacts.
Context {T : Type} `{Number T}.
Local Open Scope num_scope.
Implicit Types (g : Game.t T) (touch : Touch.t T) (innerWidth : T).

Lemma onTouchStart_touch_occupied innerWidth g touch :
  let g' := settle (onTouchStart_touch innerWidth g touch) in
  (isNull (MoveTouch.id (Input.touch_move (Game.input g))) = false ->
   Input.touch_move (Game.input g') = Input.touch_move (Game.input g))
  /\ (isNull (LookTouch.id (Input.touch_look (Game.input g))) = false ->
      Input.touch_look (Game.input g') = Input.touch_look (Game.input g)).
Proof.
  unfold onTouchStart_touch.
  destruct (Touch.clientX touch <? innerWidth / of_Z 2); cbn [negb andb];
    [destruct (isNull (MoveTouch.id _)) eqn:Hm | destruct (isNull (LookTouch.id _)) eqn:Hl];
    cbn; split; intros; try discriminate; try reflexivity.
  unfold createJoystick, removeJoystick.
  destruct (MoveTouch.joystick _); reflexivity.
Qed.

(** X4.  At most one contact per slot: a touch-start event never changes a
    slot that already tracks a touch, neither its identifier nor its start
    position, nor, for the move slot, its current position or its joystick
    widget. *)
Theorem onTouchStart_occupied innerWidth g (changedTouches : list (Touch.t T)) :
  let g' := settle (onTouchStart innerWidth g changedTouches) in
  (isNull (MoveTouch.id (Input.touch_move (Game.input g))) = false ->
   Input.touch_move (Game.input g') = Input.touch_move (Game.input g))
  /\ (isNull (LookTouch.id (Input.touch_look (Game.input g))) = false ->
      Input.touch_look (Game.input g') = Input.touch_look (Game.input g)).
Proof.
  unfold onTouchStart. revert g.
  induction changedTouches as [| touch l IH]; intros g; [cbn; auto |].
  cbn [forEach].
  pose proof (onTouchStart_touch_occupied innerWidth g touch) as [Hm Hl].
  destruct (onTouchStart_touch innerWidth g touch) as [g1 | g1] eqn:Hstep.
  - cbn [settle] in Hm, Hl. destruct (IH g1) as [Hm' Hl']. cbn zeta in *. split.
    + intros Hocc. rewrite <- (Hm Hocc). apply Hm'. rewrite (Hm Hocc). exact Hocc.
    + intros Hocc. rewrite <- (Hl Hocc). apply Hl'. rewrite (Hl Hocc). exact Hocc.
  - unfold onTouchStart_touch in Hstep.
    repeat match type of Hstep with
           | (if ?b then _ else _) = _ => destruct b
           end; discriminate.
Qed.

Lemma onTouchStart_touch_right innerWidth g touch :
  (Touch.clientX touch <? innerWidth / of_Z 2) = false ->
  Input.touch_move (Game.input (settle (onTouchStart_touch innerWidth g touch)))
  = Input.touch_move (Game.input g).
Proof.
  intros Hright. unfold onTouchStart_touch. rewrite Hright. cbn [negb andb].
  destruct (isNull (LookTouch.id _)); reflexivity.
Qed.

Lemma onTouchStart_touch_returns innerWidth g touch :
  onTouchStart_touch innerWidth g touch
  = Normal (settle (onTouchStart_touch innerWidth g touch)).
Proof.
  unfold onTouchStart_touch.
  repeat match goal with |- context [if ?b then _ else _] => destruct b end; reflexivity.
Qed.

Lemma onTouchStart_cons innerWidth g touch (l : list (Touch.t T)) :
  settle (onTouchStart innerWidth g (touch :: l))
  = settle (onTouchStart innerWidth (settle (onTouchStart_touch innerWidth g touch)) l).
Proof.
  unfold onTouchStart. cbn [forEach]. rewrite onTouchStart_touch_returns. reflexivity.
Qed.

Lemma onTouchStart_move_occupied innerWidth g (l : list (Touch.t T)) :
  isNull (MoveTouch.id (Input.touch_move (Game.input g))) = false ->
  Input.touch_move (Game.input (settle (onTouchStart innerWidth g l)))
  = Input.touch_move (Game.input g).
Proof.
  revert g. induction l as [| touch l IH]; intros g Hocc; [reflexivity |].
  rewrite onTouchStart_cons.
  pose proof (proj1 (onTouchStart_touch_occupied innerWidth g touch) Hocc) as Hm.
  cbn zeta in Hm. rewrite IH; [exact Hm | rewrite Hm; exact Hocc].
Qed.

(** X5.  Only the first touch of the left half is accepted: when the move
    slot is empty, a touch-start event whose first left-half touch is
    [touch] leaves the slot tracking [touch], started and currently at its
    position, with a fresh joystick widget placed 60 pixels up and left of
    it, whatever touches follow in the event. *)
Theorem onTouchStart_first_left innerWidth g (before after : list (Touch.t T)) touch :
  isNull (MoveTouch.id (Input.touch_move (Game.input g))) = true ->
  Forall (fun t => (Touch.clientX t <? innerWidth / of_Z 2) = false) before ->
  (Touch.clientX touch <? innerWidth / of_Z 2) = true ->
  Input.touch_move (Game.input (settle (onTouchStart innerWidth g (before ++ touch :: after))))
  = MoveTouch.mk (Some (Touch.identifier touch))
      (Vector2.mk (Touch.clientX touch) (Touch.clientY touch))
      (Vector2.mk (Touch.clientX touch) (Touch.clientY touch))
      (Some (Joystick.mk (Touch.clientX touch - of_Z 60) (Touch.clientY touch - of_Z 60) None)).
Proof.
  intros Hempty Hbefore Hleft. revert g Hempty.
  induction Hbefore as [| t before Ht _ IH]; intros g Hempty.
  - cbn [app]. rewrite onTouchStart_cons.
    assert (Hstep : Input.touch_move (Game.input (settle (onTouchStart_touch innerWidth g touch)))
                    = MoveTouch.mk (Some (Touch.identifier touch))
                        (Vector2.mk (Touch.clientX touch) (Touch.clientY touch))
                        (Vector2.mk (Touch.clientX touch) (Touch.clientY touch))
                        (Some (Joystick.mk (Touch.clientX touch - of_Z 60)
                                 (Touch.clientY touch - of_Z 60) None))).
    { unfold onTouchStart_touch. rewrite Hleft, Hempty. cbn.
      unfold createJoystick, removeJoystick.
      destruct (MoveTouch.joystick _); reflexivity. }
    rewrite <- Hstep.
    apply onTouchStart_move_occupied. rewrite Hstep. reflexivity.
  - cbn [app]. rewrite onTouchStart_cons. apply IH.
    rewrite (onTouchStart_touch_right _ _ _ Ht). exact Hempty.
Qed.

(** X6.  A joystick contact from start to end: from a state whose move slot
    is empty, a left-half touch-start followed by the touch-end of the same
    touch returns normally and leaves the slot empty, the joystick widget
    removed, the move vector zero and the speed scalar 0; the look slot is
    as it was. *)
Theorem touch_start_then_end innerWidth g touch :
  isNull (MoveTouch.id (Input.touch_move (Game.input g))) = true ->
  (Touch.clientX touch <? innerWidth / of_Z 2) = true ->
  let g1 := settle (onTouchStart innerWidth g [touch]) in
  exists g2, onTouchEnd g1 [touch] = Normal g2
    /\ MoveTouch.id (Input.touch_move (Game.input g2)) = None
    /\ MoveTouch.joystick (Input.touch_move (Game.input g2)) = None
    /\ Input.move (Game.input g2) = Vector2.mk (of_Z 0) (of_Z 0)
    /\ Player.currentSpeed (Game.player g2) = of_Z 0
    /\ Input.touch_look (Game.input g2) = Input.touch_look (Game.input g).
Proof.
  intros Hempty Hleft g1.
  assert (Hg1 : g1 = createJoystick
                  (Game.set_input
                     (Input.set_touch_move
                        (MoveTouch.mk (Some (Touch.identifier touch))
                           (Vector2.mk (Touch.clientX touch) (Touch.clientY touch))
                           (Vector2.mk (Touch.clientX touch) (Touch.clientY touch))
                           (MoveTouch.joystick (Input.touch_move (Game.input g))))
                        (Game.input g)) g)
                  (Vector2.mk (Touch.clientX touch) (Touch.clientY touch))).
  { unfold g1, onTouchStart. cbn [forEach]. unfold onTouchStart_touch.
    rewrite Hleft, Hempty. reflexivity. }
  rewrite Hg1. unfold onTouchEnd. cbn [forEach]. unfold onTouchEnd_touch.
  unfold createJoystick, removeJoystick.
  destruct (MoveTouch.joystick (Input.touch_move (Game.input g))); cbn;
    rewrite Z.eqb_refl; cbn; eexists; repeat split; reflexivity.
Qed.
End Contacts.

Lemma onTouchStart_occupied_witness :
  Input.touch_move
    (Game.input (settle (onTouchStart (T:=R) 800%R heldJoystick [strayTouch; touchDown])))
  = Input.touch_move (Game.input heldJoystick).
Proof.
  apply (proj1 (onTouchStart_occupied 800%R heldJoystick [strayTouch; touchDown])).
  reflexivity.
Defined.

Local Open Scope R_scope.

Lemma onTouchStart_first_left_witness :
  Input.touch_move
    (Game.input (settle (onTouchStart (T:=R) 800 (touchArena [])
                           ([strayTouch] ++ touchDown :: [drag30]))))
  = MoveTouch.mk (Some (Touch.identifier (touchDown (T:=R))))
      (Vector2.mk (Touch.clientX touchDown) (Touch.clientY touchDown))
      (Vector2.mk (Touch.clientX touchDown) (Touch.clientY touchDown))
      (Some (Joystick.mk (Touch.clientX touchDown - 60) (Touch.clientY touchDown - 60) None)).
Proof.
  assert (Hright : Forall (fun t : Touch.t R => Rltb (Touch.clientX t) (800 / 2) = false)
                     [strayTouch]).
  { constructor; [| constructor]. apply Rltb_false. cbn. lra. }
  assert (Hleft : Rltb (Touch.clientX (touchDown (T:=R))) (800 / 2) = true).
  { apply Rltb_true. cbn. lra. }
  exact (onTouchStart_first_left (T:=R) 800 (touchArena []) [strayTouch] [drag30] touchDown
           eq_refl Hright Hleft).
Defined.

Lemma touch_start_then_end_witness :
  exists g2, onTouchEnd (settle (onTouchStart (T:=R) 800 (touchArena []) [touchDown])) [touchDown]
             = Normal g2
    /\ MoveTouch.id (Input.touch_move (Game.input g2)) = None
    /\ MoveTouch.joystick (Input.touch_move (Game.input g2)) = None
    /\ Input.move (Game.input g2) = Vector2.mk 0 0
    /\ Player.currentSpeed (Game.player g2) = 0
    /\ Input.touch_look (Game.input g2) = Input.touch_look (Game.input (touchArena (T:=R) [])).
Proof.
  assert (Hleft : Rltb (Touch.clientX (touchDown (T:=R))) (800 / 2) = true).
  { apply Rltb_true. cbn. lra. }
  exact (touch_start_then_end (T:=R) 800 (touchArena []) touchDown eq_refl Hleft).
Defined.

(** ** Dragging, in exact arithmetic *)

Section Dragging.
Context `{Extern R}.
Implicit Types (g : Game.t R) (touch : Touch.t R).

(** One touch-move event of the touch the look slot tracks. *)
Lemma onTouchMove_look g i x y :
  LookTouch.id (Input.touch_look (Game.input g)) = Some i ->
  sameId i (MoveTouch.id (Input.touch_move (Game.input g))) = false ->
  let g' := settle (onTouchMove g [Touch.mk i x y]) in
  let s := CameraControls.sensitivity (Game.cameraControls g) in
  let start := LookTouch.start (Input.touch_look (Game.input g)) in
  Input.look (Game.input g')
  = Vector2.mk (Vector2.x (Input.look (Game.input g)) - (x - Vector2.x start) * s)
               (Vector2.y (Input.look (Game.input g)) + (y - Vector2.y start) * s)
  /\ Input.touch_look (Game.input g') = LookTouch.mk (Some i) (Vector2.mk x y)
  /\ Input.touch_move (Game.input g') = Input.touch_move (Game.input g)
  /\ Game.cameraControls g' = Game.cameraControls g.
Proof.
  intros Hlook Hmove. unfold onTouchMove. cbn [forEach]. unfold onTouchMove_touch.
  cbn [Touch.identifier]. rewrite Hmove, Hlook. cbn [sameId]. rewrite Z.eqb_refl. cbn.
  repeat split; reflexivity.
Qed.

Lemma last_cons_default {A : Type} (a d : A) (l : list A) :
  List.last (a :: l) d = List.last l a.
Proof.
  revert a d. induction l as [| b l IH]; intros a d; [reflexivity |].
  change (List.last (a :: b :: l) d) with (List.last (b :: l) d).
  rewrite (IH b d), (IH b a). reflexivity.
Qed.

(** X7.  The look drag is incremental: after any path of touch-move events
    of the touch the look slot tracks, the accumulated look input has
    changed by the sensitivity times the displacement from where the touch
    started to where it is now (negated on x), whatever the path between,
    and the slot's reference position is the last position. *)
Theorem look_drag_telescopes g i (path : list (R * R)) :
  LookTouch.id (Input.touch_look (Game.input g)) = Some i ->
  sameId i (MoveTouch.id (Input.touch_move (Game.input g))) = false ->
  let s := CameraControls.sensitivity (Game.cameraControls g) in
  let start := LookTouch.start (Input.touch_look (Game.input g)) in
  let final := List.last path (Vector2.x start, Vector2.y start) in
  let g' := dragLook i path g in
  Input.look (Game.input g')
  = Vector2.mk (Vector2.x (Input.look (Game.input g)) - (fst final - Vector2.x start) * s)
               (Vector2.y (Input.look (Game.input g)) + (snd final - Vector2.y start) * s)
  /\ LookTouch.start (Input.touch_look (Game.input g')) = Vector2.mk (fst final) (snd final).
Proof.
  revert g. induction path as [| [x y] path IH]; intros g Hlook Hmove.
  - cbn. destruct (Input.look (Game.input g)) as [lx ly].
    destruct (LookTouch.start _) as [sx sy]. cbn. split; f_equal; lra.
  - cbn zeta. rewrite last_cons_default.
    change (dragLook i ((x, y) :: path) g)
      with (dragLook i path (settle (onTouchMove g [Touch.mk i x y]))).
    destruct (onTouchMove_look g i x y Hlook Hmove) as (Hl & Hslot & Hms & Hcc).
    set (g1 := settle (onTouchMove g [Touch.mk i x y])) in *.
    destruct (IH g1) as (IHl & IHs).
    + rewrite Hslot. reflexivity.
    + rewrite Hms. exact Hmove.
    + rewrite Hslot, Hcc, Hl in IHl. rewrite Hslot in IHs.
      cbn [LookTouch.start Vector2.x Vector2.y] in IHl, IHs.
      split; [| exact IHs]. rewrite IHl. f_equal; lra.
Qed.

(** X8.  A touch-move event of the tracked joystick touch asks for a speed
    between [baseSpeed] and [sprintSpeed] (when these are so ordered), and
    for a direction that is a unit vector as soon as the touch has left its
    start position. *)
Theorem joystick_speed_and_direction g touch :
  joystickTracked g ->
  sameId (Touch.identifier touch) (MoveTouch.id (Input.touch_move (Game.input g))) = true ->
  Player.baseSpeed (Game.player g) <= Player.sprintSpeed (Game.player g) ->
  let g' := settle (onTouchMove g [touch]) in
  Player.baseSpeed (Game.player g) <= Player.currentSpeed (Game.player g')
                                   <= Player.sprintSpeed (Game.player g)
  /\ (dragDistance g touch <> 0 -> Vector2.lengthSq (Input.move (Game.input g')) = 1).
Proof.
  intros Htr Hid Hspeeds.
  assert (Hj : MoveTouch.joystick (Input.touch_move (Game.input g)) <> None).
  { intros Hnone. apply Htr in Hnone. rewrite Hnone in Hid. discriminate. }
  unfold onTouchMove. cbn [forEach]. unfold onTouchMove_touch. rewrite Hid. cbn zeta.
  cbn [MoveTouch.joystick].
  destruct (MoveTouch.joystick (Input.touch_move (Game.input g))) as [j |]; [| contradiction].
  cbn [settle Game.player Game.set_player Player.currentSpeed Player.set_currentSpeed
       Game.input Game.set_input Input.move Input.set_move MoveTouch.current MoveTouch.start].
  unfold Vector2.normalize, Vector2.divideScalar, Vector2.multiplyScalar.
  change (Vector2.length (Vector2.sub (Vector2.mk (Touch.clientX touch) (Touch.clientY touch))
                            (MoveTouch.start (Input.touch_move (Game.input g)))))
    with (dragDistance g touch).
  set (dx := Touch.clientX touch - Vector2.x (MoveTouch.start (Input.touch_move (Game.input g)))).
  set (dy := Touch.clientY touch - Vector2.y (MoveTouch.start (Input.touch_move (Game.input g)))).
  assert (Hd : 0 <= dragDistance g touch) by apply sqrt_pos.
  assert (Hsq : dragDistance g touch * dragDistance g touch = dx * dx + dy * dy).
  { unfold dragDistance, Vector2.length, Vector2.sub. cbn. fold dx dy.
    apply sqrt_sqrt, sum_squares_nonneg. }
  remember (dragDistance g touch) as d eqn:Hdd. clear Hdd. split.
  - unfold MathUtils.lerp. cbn.
    set (t := Rmin d 60 / 60).
    assert (Ht : 0 <= t <= 1).
    { unfold t. pose proof (Rmin_r d 60). pose proof (Rmin_glb d 60 0 Hd ltac:(lra)). lra. }
    clearbody t. nra.
  - intros Hnz. cbn. rewrite Reqb_false by exact Hnz. cbn. fold dx dy.
    transitivity ((dx * dx + dy * dy) / (d * d)); [field; exact Hnz |].
    rewrite <- Hsq. field. exact Hnz.
Qed.
End Dragging.

Lemma look_drag_telescopes_witness :
  Input.look (Game.input (dragLook (T:=R) 3 [(610, 200); (650, 230)] heldLook))
  = Vector2.mk
      (Vector2.x (Input.look (Game.input (heldLook (T:=R))))
       - (650 - Vector2.x (LookTouch.start (Input.touch_look (Game.input (heldLook (T:=R))))))
         * CameraControls.sensitivity (Game.cameraControls (heldLook (T:=R))))
      (Vector2.y (Input.look (Game.input (heldLook (T:=R))))
       + (230 - Vector2.y (LookTouch.start (Input.touch_look (Game.input (heldLook (T:=R))))))
         * CameraControls.sensitivity (Game.cameraControls (heldLook (T:=R))))
  /\ LookTouch.start (Input.touch_look (Game.input (dragLook (T:=R) 3 [(610, 200); (650, 230)]
                                                      heldLook)))
     = Vector2.mk 650 230.
Proof.
  exact (look_drag_telescopes heldLook 3 [(610, 200); (650, 230)] eq_refl eq_refl).
Defined.

Lemma joystick_speed_and_direction_witness :
  Player.baseSpeed (Game.player (heldJoystick (T:=R)))
  <= Player.currentSpeed (Game.player (settle (onTouchMove heldJoystick [drag30])))
  <= Player.sprintSpeed (Game.player (heldJoystick (T:=R)))
  /\ (dragDistance (T:=R) heldJoystick drag30 <> 0 ->
      Vector2.lengthSq (Input.move (Game.input (settle (onTouchMove heldJoystick [drag30])))) = 1).
Proof.
  apply (joystick_speed_and_direction heldJoystick drag30).
  - split; discriminate.
  - reflexivity.
  - cbn. lra.
Defined.

Local Close Scope R_scope.

(** ** Every reachable state, for every number type *)

Section Reachable.
Context {T : Type} `{Number T} `{Extern T}.
Local Open Scope num_scope.
Implicit Types (g : Game.t T) (deltaTime : T).

Lemma onModelLoaded_tracked g mesh hasAnimation :
  joystickTracked g -> joystickTracked (onModelLoaded g mesh hasAnimation).
Proof. intros Htr. unfold onModelLoaded. destruct hasAnimation; exact Htr. Qed.

Lemma run_tracked (steps : list (Step T)) g :
  joystickTracked g -> joystickTracked (run steps g).
Proof.
  unfold run. revert g. induction steps as [| s steps IH]; intros g Htr; [exact Htr |].
  cbn [fold_left]. apply IH. destruct s; cbn [step].
  - apply dispatch_tracked, Htr.
  - apply update_tracked, Htr.
  - apply onModelLoaded_tracked, Htr.
Qed.

(** X9.  In every state reached from the constructor by listener calls,
    frames and the loading of the model, in any order, the joystick widget
    exists exactly when the move slot tracks a touch; hence a touch-move
    event always returns normally: the [TypeError] of querying a missing
    widget cannot occur. *)
Theorem reachable_joystick_tracked colliders isTouchDevice (steps : list (Step T))
    (changedTouches : list (Touch.t T)) :
  let g := run steps (constructor colliders isTouchDevice) in
  joystickTracked g /\ exists g', onTouchMove g changedTouches = Normal g'.
Proof.
  intros g.
  assert (Htr : joystickTracked g) by apply run_tracked, constructor_tracked.
  split; [exact Htr | apply onTouchMove_returns, Htr].
Qed.

Lemma update_unloaded g deltaTime :
  Player.mesh (Game.player g) = None -> update g deltaTime = updateInput g deltaTime.
Proof.
  intros Hm. unfold update.
  destruct (updateInput_frame g deltaTime) as (_ & _ & _ & Hmesh & _).
  rewrite Hmesh, Hm. reflexivity.
Qed.

Lemma updateInput_rest_of_state g deltaTime :
  Game.camera (updateInput g deltaTime) = Game.camera g
  /\ Game.walkAction (updateInput g deltaTime) = Game.walkAction g
  /\ Game.colliders (updateInput g deltaTime) = Game.colliders g
  /\ CameraControls.target (Game.cameraControls (updateInput g deltaTime))
     = CameraControls.target (Game.cameraControls g).
Proof.
  unfold updateInput. destruct g as [cam pl wa cc inp cols [|]]; cbn; repeat split; reflexivity.
Qed.

(** X10.  Until the model is loaded, frames leave the avatar, the camera
    and the animation as they are: after any number of frames the mesh is
    still absent, and the velocity, the camera, its follow target and the
    walk action are unchanged. *)
Theorem frames_unloaded g deltaTime (n : nat) :
  Player.mesh (Game.player g) = None ->
  let g' := frames n deltaTime g in
  Player.mesh (Game.player g') = None
  /\ Player.velocity (Game.player g') = Player.velocity (Game.player g)
  /\ Game.camera g' = Game.camera g
  /\ CameraControls.target (Game.cameraControls g') = CameraControls.target (Game.cameraControls g)
  /\ Game.walkAction g' = Game.walkAction g.
Proof.
  intros Hm. induction n as [| n (Hmesh & Hv & Hcam & Htarget & Hwa)]; [cbn; auto 10 |].
  cbn zeta in *.
  change (frames (S n) deltaTime g) with (update (frames n deltaTime g) deltaTime).
  rewrite (update_unloaded _ deltaTime Hmesh).
  destruct (updateInput_frame (frames n deltaTime g) deltaTime) as (_ & _ & _ & Hm' & Hv').
  destruct (updateInput_rest_of_state (frames n deltaTime g) deltaTime) as (Hc' & Hw' & _ & Ht').
  rewrite Hm', Hv', Hc', Hw', Ht'. auto 10.
Qed.

(** X11.  With the model and its animation loaded, a frame leaves the walk
    action running exactly when the squared speed after the frame exceeds
    0.01; when it runs, its time scale is the interpolation between 0.5 and
    2 at the ratio of the speed to [sprintSpeed], and when it does not, its
    time scale is as it was. *)
Theorem update_walkAction g mesh action deltaTime :
  Player.mesh (Game.player g) = Some mesh ->
  Game.walkAction g = Some action ->
  let g' := update g deltaTime in
  let velocity := Player.velocity (Game.player g') in
  Game.walkAction g'
  = Some (if Vector3.lengthSq velocity >? decimal 1 100
          then Action.mk true
                 (MathUtils.lerp (decimal 5 10) (of_Z 2)
                    (Vector3.length velocity / Player.sprintSpeed (Game.player g)))
          else Action.mk false (Action.timeScale action)).
Proof.
  intros Hm Ha. cbn zeta. unfold update.
  destruct (updateInput_frame g deltaTime) as (_ & _ & _ & Hmesh & _).
  destruct (updateInput_rest_of_state g deltaTime) as (_ & Hwa & _ & _).
  rewrite Hmesh, Hm.
  assert (Hsprint : Player.sprintSpeed (Game.player (updateInput g deltaTime))
                    = Player.sprintSpeed (Game.player g)).
  { unfold updateInput. destruct g as [cam pl wa cc inp cols [|]]; reflexivity. }
  rewrite <- Hsprint. rewrite Ha in Hwa.
  generalize dependent (updateInput g deltaTime). intros g1 _ Hwa _.
  unfold updateCamera, updatePlayer.
  destruct (Vector2.lengthSq _ =? _); cbn;
    destruct (_ >? _) eqn:Hfast; cbn; rewrite ?Hwa; cbn; rewrite ?Hfast;
    try reflexivity; destruct action as [[] ts]; cbn; rewrite ?Hfast, ?Hwa; reflexivity.
Qed.
End Reachable.

Local Open Scope R_scope.

Lemma frames_unloaded_witness :
  Player.mesh (Game.player (frames (T:=R) 3 (1 / 60) (constructor [] false))) = None
  /\ Player.velocity (Game.player (frames (T:=R) 3 (1 / 60) (constructor [] false)))
     = Player.velocity (Game.player (constructor (T:=R) [] false))
  /\ Game.camera (frames (T:=R) 3 (1 / 60) (constructor [] false))
     = Game.camera (constructor (T:=R) [] false)
  /\ CameraControls.target (Game.cameraControls (frames (T:=R) 3 (1 / 60) (constructor [] false)))
     = CameraControls.target (Game.cameraControls (constructor (T:=R) [] false))
  /\ Game.walkAction (frames (T:=R) 3 (1 / 60) (constructor [] false))
     = Game.walkAction (constructor (T:=R) [] false).
Proof.
  exact (frames_unloaded (T:=R) (constructor [] false) (1 / 60) 3 eq_refl).
Defined.

Lemma update_walkAction_witness :
  Game.walkAction (update (T:=R) coasting (1 / 100))
  = Some (if Rltb (1 / 100)
               (Vector3.lengthSq (Player.velocity (Game.player (update (T:=R) coasting (1 / 100)))))
          then Action.mk true
                 (MathUtils.lerp (5 / 10) 2
                    (Vector3.length (Player.velocity (Game.player (update (T:=R) coasting (1 / 100))))
                     / Player.sprintSpeed (Game.player (coasting (T:=R)))))
          else Action.mk false 1).
Proof.
  exact (update_walkAction (T:=R) coasting (Mesh.mk (Vector3.mk 0 0 0) 0) (Action.mk false 1)
           (1 / 100) eq_refl eq_refl).
Defined.

(** ** More of the frame, in exact arithmetic *)

Section MoreFrames.
Context `{Extern R}.
Implicit Types (g : Game.t R) (m : Mesh.t R) (dt : R).

Lemma pow_abs_ge_1 (k : R) (n : nat) : 1 <= Rabs k -> 1 <= Rabs (k ^ n).
Proof.
  intros Hk. rewrite <- RPow_abs. induction n as [| n IH]; cbn; [lra |].
  pose proof (Rabs_pos k). nra.
Qed.

(** X12.  With the model loaded and no movement asked for, the velocity
    after [n] frames of duration [dt] is the starting velocity scaled by
    [(1 - 10 dt) ^ n].  So a frame of exactly 1/10 s stops the avatar at
    once, and with frames of 1/5 s or longer the magnitude of the velocity
    never falls below its starting value. *)
Theorem rest_velocity_closed_form g m dt (n : nat) :
  Player.mesh (Game.player g) = Some m ->
  restInput g = true ->
  let v := Player.velocity (Game.player g) in
  let v' := Player.velocity (Game.player (frames n dt g)) in
  v' = Vector3.multiplyScalar v ((1 - 10 * dt) ^ n)
  /\ (dt = 1 / 10 -> (0 < n)%nat -> v' = Vector3.mk 0 0 0)
  /\ (1 / 5 <= dt -> Vector3.length v <= Vector3.length v').
Proof.
  intros Hm Hrest v v'.
  destruct (frames_rest g m dt n Hm Hrest) as (Hv & _). fold v v' in Hv.
  split; [exact Hv |]. split.
  - intros -> Hn. rewrite Hv. destruct n as [| n]; [lia |].
    unfold Vector3.multiplyScalar. cbn. f_equal; lra.
  - intros Hdt. rewrite Hv, length_multiplyScalar.
    assert (Hk : 1 <= Rabs ((1 - 10 * dt) ^ n)).
    { apply pow_abs_ge_1. unfold Rabs. destruct (Rcase_abs _); lra. }
    pose proof (sqrt_pos (Vector3.x v * Vector3.x v + Vector3.y v * Vector3.y v
                          + Vector3.z v * Vector3.z v)) as Hl.
    unfold Vector3.length. cbn. nra.
Qed.

Lemma onMouseMove_look g mx my :
  Input.look (Game.input (onMouseMove g mx my))
  = Vector2.mk
      (Vector2.x (Input.look (Game.input g))
       + mx * CameraControls.sensitivity (Game.cameraControls g))
      (Vector2.y (Input.look (Game.input g))
       + my * CameraControls.sensitivity (Game.cameraControls g))
  /\ Game.cameraControls (onMouseMove g mx my) = Game.cameraControls g.
Proof. split; reflexivity. Qed.

Lemma fold_pointerLock (changes : list bool) (page : Page.t) :
  Page.mousemoveListeners (fold_left (fun p locked => onPointerLockChange locked p) changes page)
  = (Page.mousemoveListeners page + count_occ bool_dec changes true)%nat.
Proof.
  revert page. induction changes as [| [|] changes IH]; intros page; cbn [fold_left count_occ].
  - lia.
  - rewrite IH. destruct (bool_dec true true); [cbn; lia | contradiction].
  - rewrite IH. destruct (bool_dec false true); [discriminate | reflexivity].
Qed.

Lemma mousemove_look (n : nat) g mx my :
  let g' := Nat.iter n (fun g => onMouseMove g mx my) g in
  Input.look (Game.input g')
  = Vector2.mk
      (Vector2.x (Input.look (Game.input g))
       + INR n * (mx * CameraControls.sensitivity (Game.cameraControls g)))
      (Vector2.y (Input.look (Game.input g))
       + INR n * (my * CameraControls.sensitivity (Game.cameraControls g)))
  /\ Game.cameraControls g' = Game.cameraControls g.
Proof.
  induction n as [| n (IHl & IHc)].
  - cbn. split; [| reflexivity]. destruct (Input.look (Game.input g)). cbn. f_equal; lra.
  - cbn zeta in *.
    change (Nat.iter (S n) (fun g => onMouseMove g mx my) g)
      with (onMouseMove (Nat.iter n (fun g => onMouseMove g mx my) g) mx my).
    destruct (onMouseMove_look (Nat.iter n (fun g => onMouseMove g mx my) g) mx my) as (Hl & Hc).
    rewrite Hl, Hc, IHl, IHc. split; [| reflexivity].
    rewrite S_INR. cbn. f_equal; lra.
Qed.

(** X13.  The [mousemove] listeners are never removed: after any sequence
    of pointer-lock changes their number has grown by the number of times
    the lock was acquired, releases removing none.  One mouse motion then
    moves the accumulated look input by that number times the motion scaled
    by the sensitivity: the pointer keeps turning the camera after the lock
    is released, and faster after each new lock. *)
Theorem pointer_lock_listeners_accumulate (changes : list bool) (page : Page.t) g mx my :
  let page' := fold_left (fun p locked => onPointerLockChange locked p) changes page in
  let n := (Page.mousemoveListeners page + count_occ bool_dec changes true)%nat in
  Page.mousemoveListeners page' = n
  /\ Input.look (Game.input (mousemove page' g mx my))
     = Vector2.mk
         (Vector2.x (Input.look (Game.input g))
          + INR n * (mx * CameraControls.sensitivity (Game.cameraControls g)))
         (Vector2.y (Input.look (Game.input g))
          + INR n * (my * CameraControls.sensitivity (Game.cameraControls g))).
Proof.
  cbn zeta. split; [apply fold_pointerLock |].
  unfold mousemove. rewrite fold_pointerLock. apply mousemove_look.
Qed.
End MoreFrames.

Lemma rest_velocity_closed_form_witness :
  Player.velocity (Game.player (frames (T:=R) 2 (1 / 5) coasting))
  = Vector3.multiplyScalar (Player.velocity (Game.player (coasting (T:=R))))
      ((1 - 10 * (1 / 5)) ^ 2)
  /\ (1 / 5 = 1 / 10 -> (0 < 2)%nat ->
      Player.velocity (Game.player (frames (T:=R) 2 (1 / 5) coasting)) = Vector3.mk 0 0 0)
  /\ (1 / 5 <= 1 / 5 ->
      Vector3.length (Player.velocity (Game.player (coasting (T:=R))))
      <= Vector3.length (Player.velocity (Game.player (frames (T:=R) 2 (1 / 5) coasting)))).
Proof.
  assert (Hrest : restInput (T:=R) coasting = true) by (vm_compute; reflexivity).
  exact (rest_velocity_closed_form coasting (Mesh.mk (Vector3.mk 0 0 0) 0) (1 / 5) 2
           eq_refl Hrest).
Defined.

Local Close Scope R_scope.

(** ** Keys, for every number type *)

Section Keys.
Context {T : Type} `{Number T}.
Implicit Types (g : Game.t T) (code other : string).

Lemma keydown_repeated g code (n : nat) :
  Input.keys (Game.input (Nat.iter n (fun g => keydown g code) (keydown g code)))
  = {[ code ]} ∪ Input.keys (Game.input g).
Proof.
  induction n as [| n IH]; [reflexivity |].
  change (Nat.iter (S n) (fun g => keydown g code) (keydown g code))
    with (keydown (Nat.iter n (fun g => keydown g code) (keydown g code)) code).
  unfold keydown at 1. cbn. rewrite IH, (assoc_L (∪)), union_idemp_L. reflexivity.
Qed.

(** X14.  A key is held from its [keydown] to its [keyup]: after a
    [keydown], however many times the event repeats, the code is in the set
    of held keys, a single [keyup] takes it out, and neither event changes
    whether any other code is held. *)
Theorem key_held_until_released g code other (repeats : nat) :
  let held := Nat.iter repeats (fun g => keydown g code) (keydown g code) in
  has (Input.keys (Game.input held)) code = true
  /\ has (Input.keys (Game.input (keyup held code))) code = false
  /\ (other <> code ->
      has (Input.keys (Game.input held)) other = has (Input.keys (Game.input g)) other
      /\ has (Input.keys (Game.input (keyup held code))) other
         = has (Input.keys (Game.input g)) other).
Proof.
  intros held. pose proof (keydown_repeated g code repeats) as Hkeys. fold held in Hkeys.
  unfold has, keyup. cbn. rewrite Hkeys. repeat split.
  - apply bool_decide_eq_true, elem_of_union_l, elem_of_singleton. reflexivity.
  - apply bool_decide_eq_false. rewrite elem_of_difference, elem_of_singleton. tauto.
  - apply bool_decide_ext. rewrite elem_of_union, elem_of_singleton. tauto.
  - apply bool_decide_ext.
    rewrite elem_of_difference, elem_of_union, elem_of_singleton. tauto.
Qed.
End Keys.

Lemma key_held_until_released_witness :
  has (Input.keys (Game.input (Nat.iter 2 (fun g => keydown (T:=R) g "KeyW")
                                 (keydown (arena []) "KeyW")))) "KeyW" = true
  /\ has (Input.keys (Game.input (keyup (Nat.iter 2 (fun g => keydown (T:=R) g "KeyW")
                                           (keydown (arena []) "KeyW")) "KeyW"))) "KeyW" = false
  /\ ("KeyD" <> "KeyW" ->
      has (Input.keys (Game.input (Nat.iter 2 (fun g => keydown (T:=R) g "KeyW")
                                     (keydown (arena []) "KeyW")))) "KeyD"
      = has (Input.keys (Game.input (arena (T:=R) []))) "KeyD"
      /\ has (Input.keys (Game.input (keyup (Nat.iter 2 (fun g => keydown (T:=R) g "KeyW")
                                               (keydown (arena []) "KeyW")) "KeyW"))) "KeyD"
         = has (Input.keys (Game.input (arena (T:=R) []))) "KeyD").
Proof.
  exact (key_held_until_released (T:=R) (arena []) "KeyW" "KeyD" 2).
Defined.

(** ** More runs in binary64 *)

Lemma pitch_clamped_binary64_witness :
  PrimFloat.leb (- PI / of_Z 3)%num
    (CameraControls.phi
       (Game.cameraControls
          (updateInput (onMouseMove (arena []) (of_Z 0) PrimFloat.infinity) (of_Z 0)))) = true
  /\ PrimFloat.leb
       (CameraControls.phi
          (Game.cameraControls
             (updateInput (onMouseMove (arena []) (of_Z 0) PrimFloat.infinity) (of_Z 0))))
       (PI / of_Z 3)%num = true.
Proof.
  apply (pitch_clamped_binary64 (onMouseMove (arena []) (of_Z 0) PrimFloat.infinity) (of_Z 0)).
  vm_compute. reflexivity.
Defined.

(** With every draw 1/4 the scenery is generated in binary64 too: 150
    colliders, 650 draws consumed. *)
Lemma scenery_binary64 :
  match generateScenery (T:=PrimFloat.float) [] (repeat (decimal 1 4) 660) with
  | Some (colliders, rest) => (length colliders, length rest)
  | None => (0, 0)%nat
  end = (150, 10)%nat.
Proof. vm_compute. reflexivity. Qed.

Local Open Scope R_scope.

Section Untracked.
Context {T : Type} `{Number T} `{Extern T}.

(** X15.  A touch-move event none of whose touches has the identifier
    tracked by the move slot or by the look slot returns normally and leaves
    the whole state as it was. *)
Theorem onTouchMove_untracked (g : Game.t T) (changedTouches : list (Touch.t T)) :
  (forall touch, In touch changedTouches ->
     sameId (Touch.identifier touch) (MoveTouch.id (Input.touch_move (Game.input g))) = false
     /\ sameId (Touch.identifier touch) (LookTouch.id (Input.touch_look (Game.input g))) = false) ->
  onTouchMove g changedTouches = Normal g.
Proof.
  intros Hun. unfold onTouchMove. apply forEach_id.
  intros touch Hin. destruct (Hun touch Hin) as [Hmove Hlook].
  unfold onTouchMove_touch. rewrite Hmove, Hlook. reflexivity.
Qed.
End Untracked.

Lemma onTouchMove_untracked_witness :
  onTouchMove (T:=R) heldJoystick [strayTouch] = Normal heldJoystick.
Proof.
  apply onTouchMove_untracked. intros touch [<- | []]. split; reflexivity.
Defined.

(** ** Position and follow target, in exact arithmetic *)

Section Following.
Context `{Extern R}.
Implicit Types (g : Game.t R) (m : Mesh.t R) (dt : R) (p : Vector3.t R).

Lemma checkCollisions_same g g' p :
  Player.mesh (Game.player g') = Player.mesh (Game.player g) ->
  Player.collisionRadius (Game.player g') = Player.collisionRadius (Game.player g) ->
  Game.colliders g' = Game.colliders g ->
  checkCollisions g' p = checkCollisions g p.
Proof. intros Hm Hr Hc. unfold checkCollisions. rewrite Hm, Hr, Hc. reflexivity. Qed.

Lemma updatePlayer_position m g dt :
  Player.mesh (Game.player g) = Some m ->
  let g' := updatePlayer m g dt in
  exists m',
    Player.mesh (Game.player g') = Some m'
    /\ Mesh.position m'
       = checkCollisions g
           (Vector3.add (Mesh.position m)
              (Vector3.multiplyScalar (Player.velocity (Game.player g')) dt))
    /\ Player.collisionRadius (Game.player g') = Player.collisionRadius (Game.player g)
    /\ Game.colliders g' = Game.colliders g.
Proof.
  intros Hm. cbn zeta. unfold updatePlayer.
  set (v := if (Vector2.lengthSq (Input.move (Game.input g)) =? of_Z 0)%num then _ else _).
  assert (Hcc : forall p, checkCollisions (Game.set_player (Player.set_velocity v (Game.player g)) g) p
                          = checkCollisions g p).
  { intros p. apply checkCollisions_same; reflexivity. }
  rewrite Hcc. clearbody v.
  destruct (_ >? _)%num; cbn; destruct (Game.walkAction g) as [[[] ?] |]; cbn;
    eexists; repeat split; reflexivity.
Qed.

Lemma update_mesh_position g m dt :
  Player.mesh (Game.player g) = Some m ->
  exists m',
    Player.mesh (Game.player (update g dt)) = Some m'
    /\ Mesh.position m'
       = checkCollisions g
           (Vector3.add (Mesh.position m)
              (Vector3.multiplyScalar (Player.velocity (Game.player (update g dt))) dt)).
Proof.
  intros Hm. unfold update.
  destruct (updateInput_frame g dt) as (_ & _ & _ & Hmesh & _).
  assert (Hsame : Player.collisionRadius (Game.player (updateInput g dt))
                  = Player.collisionRadius (Game.player g)
                  /\ Game.colliders (updateInput g dt) = Game.colliders g).
  { unfold updateInput. destruct g as [cam pl wa cc inp cols [|]]; split; reflexivity. }
  destruct Hsame as (Hr & Hc).
  rewrite Hmesh, Hm.
  assert (Hm1 : Player.mesh (Game.player (updateInput g dt)) = Some m) by congruence.
  destruct (updatePlayer_position m (updateInput g dt) dt Hm1) as (m' & Hm' & Hpos & _ & _).
  destruct (updateCamera_frame (updatePlayer m (updateInput g dt) dt) dt) as (_ & _ & Hpl & _).
  rewrite Hpl. exists m'. split; [exact Hm' |].
  rewrite (checkCollisions_same g (updateInput g dt)) in Hpos by congruence.
  exact Hpos.
Qed.

(** X16.  Collisions are resolved, never rejected: with the model loaded,
    the position after a frame is [checkCollisions] of the candidate
    position + velocity * dt, for the velocity the frame leaves; when that
    candidate clears every collider, or is at its centre, the position is
    the candidate itself. *)
Theorem update_position g m dt :
  Player.mesh (Game.player g) = Some m ->
  let g' := update g dt in
  let candidate :=
    Vector3.add (Mesh.position m)
      (Vector3.multiplyScalar (Player.velocity (Game.player g')) dt) in
  exists m',
    Player.mesh (Game.player g') = Some m'
    /\ Mesh.position m' = checkCollisions g candidate
    /\ ((forall c, In c (Game.colliders g) ->
           coincides candidate c
           \/ clears 0 (Player.collisionRadius (Game.player g)) candidate c) ->
        Mesh.position m' = candidate).
Proof.
  intros Hm. cbn zeta.
  destruct (update_mesh_position g m dt Hm) as (m' & Hm' & Hpos).
  exists m'. split; [exact Hm' |]. split; [exact Hpos |].
  intros Hclear. rewrite Hpos, (checkCollisions_loaded g m _ Hm). apply loop_fixed, Hclear.
Qed.
End Following.

Lemma update_position_witness :
  exists m',
    Player.mesh (Game.player (update (T:=R) coasting (1 / 10))) = Some m'
    /\ Mesh.position m'
       = checkCollisions coasting
           (Vector3.add (Mesh.position (Mesh.mk (Vector3.mk 0 0 0) 0))
              (Vector3.multiplyScalar
                 (Player.velocity (Game.player (update (T:=R) coasting (1 / 10)))) (1 / 10)))
    /\ ((forall c, In c (Game.colliders (coasting (T:=R))) ->
           coincides
             (Vector3.add (Mesh.position (Mesh.mk (Vector3.mk 0 0 0) 0))
                (Vector3.multiplyScalar
                   (Player.velocity (Game.player (update (T:=R) coasting (1 / 10)))) (1 / 10))) c
           \/ clears 0 (Player.collisionRadius (Game.player (coasting (T:=R))))
                (Vector3.add (Mesh.position (Mesh.mk (Vector3.mk 0 0 0) 0))
                   (Vector3.multiplyScalar
                      (Player.velocity (Game.player (update (T:=R) coasting (1 / 10)))) (1 / 10)))
                c) ->
        Mesh.position m'
        = Vector3.add (Mesh.position (Mesh.mk (Vector3.mk 0 0 0) 0))
            (Vector3.multiplyScalar
               (Player.velocity (Game.player (update (T:=R) coasting (1 / 10)))) (1 / 10))).
Proof.
  exact (update_position coasting (Mesh.mk (Vector3.mk 0 0 0) 0) (1 / 10) eq_refl).
Defined.

Section FollowTarget.
Context `{Extern R}.
Implicit Types (g : Game.t R) (m : Mesh.t R) (dt : R) (p : Vector3.t R).

Lemma update_scene g dt :
  Game.colliders (update g dt) = Game.colliders g
  /\ Player.collisionRadius (Game.player (update g dt)) = Player.collisionRadius (Game.player g).
Proof.
  assert (Hin : Game.colliders (updateInput g dt) = Game.colliders g
                /\ Player.collisionRadius (Game.player (updateInput g dt))
                   = Player.collisionRadius (Game.player g)).
  { unfold updateInput. destruct g as [cam pl wa cc inp cols [|]]; split; reflexivity. }
  destruct Hin as (Hc & Hr). unfold update.
  destruct (Player.mesh (Game.player (updateInput g dt))) as [m |] eqn:Hm; [| split; assumption].
  destruct (updatePlayer_position m (updateInput g dt) dt Hm) as (m' & _ & _ & Hr' & Hc').
  destruct (updateCamera_frame (updatePlayer m (updateInput g dt) dt) dt) as (_ & _ & Hpl & _).
  rewrite Hpl, Hr', Hr. split; [| reflexivity].
  rewrite <- Hc, <- Hc'. unfold updateCamera.
  destruct (Player.mesh (Game.player (updatePlayer m (updateInput g dt) dt))); reflexivity.
Qed.

Lemma update_target g m' dt :
  Player.mesh (Game.player (update g dt)) = Some m' ->
  CameraControls.target (Game.cameraControls (update g dt))
  = Vector3.lerp (CameraControls.target (Game.cameraControls g)) (Mesh.position m') (15 * dt).
Proof.
  unfold update.
  destruct (updateInput_rest_of_state g dt) as (_ & _ & _ & Ht).
  destruct (Player.mesh (Game.player (updateInput g dt))) as [m |] eqn:Hm.
  - destruct (updatePlayer_frame m (updateInput g dt) dt) as (_ & _ & Hcc & _).
    destruct (updateCamera_frame (updatePlayer m (updateInput g dt) dt) dt) as (_ & _ & Hpl & _).
    rewrite Hpl. intros Hm'. unfold updateCamera. rewrite Hm'. cbn.
    rewrite Hcc, Ht. reflexivity.
  - rewrite Hm. discriminate.
Qed.

Lemma update_standing g m dt :
  standing g m ->
  exists m', standing (update g dt) m'
    /\ Mesh.position m' = Mesh.position m
    /\ CameraControls.target (Game.cameraControls (update g dt))
       = Vector3.lerp (CameraControls.target (Game.cameraControls g)) (Mesh.position m) (15 * dt).
Proof.
  intros (Hm & Hrest & Hv & Hclear).
  destruct (update_rest g m dt Hm Hrest) as (Hv' & Hrest' & _).
  assert (Hzero : Player.velocity (Game.player (update g dt)) = Vector3.mk 0 0 0).
  { rewrite Hv', Hv. unfold Vector3.lerp. cbn. f_equal; lra. }
  destruct (update_mesh_position g m dt Hm) as (m' & Hm' & Hpos). rewrite Hzero in Hpos.
  assert (Hcand : Vector3.add (Mesh.position m) (Vector3.multiplyScalar (Vector3.mk 0 0 0) dt)
                  = Mesh.position m).
  { destruct (Mesh.position m). unfold Vector3.add, Vector3.multiplyScalar. cbn. f_equal; lra. }
  rewrite Hcand, (checkCollisions_loaded g m _ Hm), (loop_fixed _ _ _ Hclear) in Hpos.
  destruct (update_scene g dt) as (Hc & Hr).
  exists m'. split; [| split; [exact Hpos |]].
  - unfold standing. rewrite Hc, Hr, Hpos. auto.
  - rewrite (update_target g m' dt Hm'), Hpos. reflexivity.
Qed.

Lemma frames_standing g m dt (n : nat) :
  standing g m ->
  let p := Mesh.position m in
  let t := CameraControls.target (Game.cameraControls g) in
  let k := (1 - 15 * dt) ^ n in
  exists m', standing (frames n dt g) m' /\ Mesh.position m' = p
    /\ CameraControls.target (Game.cameraControls (frames n dt g))
       = Vector3.mk (Vector3.x p + (Vector3.x t - Vector3.x p) * k)
                    (Vector3.y p + (Vector3.y t - Vector3.y p) * k)
                    (Vector3.z p + (Vector3.z t - Vector3.z p) * k).
Proof.
  intros Hst. cbn zeta. induction n as [| n (m1 & Hst1 & Hp1 & Ht1)].
  - exists m. split; [exact Hst |]. split; [reflexivity |].
    cbn. destruct (CameraControls.target (Game.cameraControls g)). cbn. f_equal; lra.
  - rewrite frames_S.
    destruct (update_standing (frames n dt g) m1 dt Hst1) as (m' & Hst' & Hp' & Ht').
    exists m'. split; [exact Hst' |]. split; [congruence |].
    rewrite Ht', Ht1, Hp1. unfold Vector3.lerp. cbn. f_equal; lra.
Qed.

(** X17.  The camera's follow target closes in on a standing avatar: with
    the model loaded, no movement asked for, zero velocity and no collider
    pushing, the avatar stays where it is, and after [n] frames of duration
    [dt] the distance from the follow target to the avatar is the starting
    distance times [|1 - 15 dt| ^ n]; for 0 < dt < 2/15 it falls below any
    eps > 0 after enough frames. *)
Theorem follow_target_converges g m dt :
  standing g m ->
  (forall n : nat,
     (exists m', Player.mesh (Game.player (frames n dt g)) = Some m'
                 /\ Mesh.position m' = Mesh.position m)
     /\ distanceTo (CameraControls.target (Game.cameraControls (frames n dt g)))
          (Mesh.position m)
        = Rabs ((1 - 15 * dt) ^ n)
          * distanceTo (CameraControls.target (Game.cameraControls g)) (Mesh.position m))
  /\ (0 < dt < 2 / 15 ->
      forall eps, 0 < eps ->
      exists N, forall n, (N <= n)%nat ->
        distanceTo (CameraControls.target (Game.cameraControls (frames n dt g)))
          (Mesh.position m) < eps).
Proof.
  intros Hst.
  assert (Hclosed : forall n : nat,
     distanceTo (CameraControls.target (Game.cameraControls (frames n dt g))) (Mesh.position m)
     = Rabs ((1 - 15 * dt) ^ n)
       * distanceTo (CameraControls.target (Game.cameraControls g)) (Mesh.position m)).
  { intros n. destruct (frames_standing g m dt n Hst) as (m' & _ & _ & Ht).
    rewrite Ht. unfold distanceTo. cbn.
    set (k := (1 - 15 * dt) ^ n).
    set (t := CameraControls.target (Game.cameraControls g)).
    set (p := Mesh.position m).
    set (s := (Vector3.x t - Vector3.x p) * (Vector3.x t - Vector3.x p)
              + (Vector3.y t - Vector3.y p) * (Vector3.y t - Vector3.y p)
              + (Vector3.z t - Vector3.z p) * (Vector3.z t - Vector3.z p)).
    assert (Hs : 0 <= s).
    { unfold s. repeat apply Rplus_le_le_0_compat; apply Rle_0_sqr. }
    apply sqrt_lem_1.
    - repeat apply Rplus_le_le_0_compat; apply Rle_0_sqr.
    - apply Rmult_le_pos; [apply Rabs_pos | apply sqrt_pos].
    - transitivity ((Rabs k * Rabs k) * (sqrt s * sqrt s)); [ring |].
      rewrite sqrt_sqrt by exact Hs.
      replace (Rabs k * Rabs k) with (k * k); [unfold s; ring |].
      unfold Rabs. destruct (Rcase_abs k); ring. }
  split.
  - intros n. split; [| apply Hclosed].
    destruct (frames_standing g m dt n Hst) as (m' & (Hm' & _) & Hp & _).
    exists m'. split; assumption.
  - intros Hdt eps Heps.
    destruct (scaled_below (1 - 15 * dt)
                (distanceTo (CameraControls.target (Game.cameraControls g)) (Mesh.position m)) eps)
      as [N HN]; [apply Rabs_def1; lra | apply sqrt_pos | exact Heps |].
    exists N. intros n Hn. rewrite Hclosed. apply HN, Hn.
Qed.
End FollowTarget.

Lemma follow_target_converges_witness :
  (forall n : nat,
     (exists m', Player.mesh (Game.player (frames (T:=R) n (1 / 60) standingAvatar)) = Some m'
                 /\ Mesh.position m' = Mesh.position (Mesh.mk (Vector3.mk 3 0 4) 0))
     /\ distanceTo
       (CameraControls.target (Game.cameraControls (frames (T:=R) n (1 / 60) standingAvatar)))
       (Mesh.position (Mesh.mk (Vector3.mk 3 0 4) 0))
     = Rabs ((1 - 15 * (1 / 60)) ^ n)
       * distanceTo (CameraControls.target (Game.cameraControls (standingAvatar (T:=R))))
           (Mesh.position (Mesh.mk (Vector3.mk 3 0 4) 0)))
  /\ (0 < 1 / 60 < 2 / 15 ->
      forall eps, 0 < eps ->
      exists N, forall n, (N <= n)%nat ->
        distanceTo
          (CameraControls.target (Game.cameraControls (frames (T:=R) n (1 / 60) standingAvatar)))
          (Mesh.position (Mesh.mk (Vector3.mk 3 0 4) 0)) < eps).
Proof.
  apply (follow_target_converges standingAvatar (Mesh.mk (Vector3.mk 3 0 4) 0) (1 / 60)).
  split; [reflexivity |]. split; [vm_compute; reflexivity |]. split; [reflexivity |].
  intros c [<- | []]. right. unfold clears.
  replace (planarDistance (Mesh.position (Mesh.mk (Vector3.mk 3 0 4) 0)) colliderA) with 5.
  - cbn. lra.
  - symmetry. distance_is 5.
Defined.
